(** * interpreter-verify-ru: the threaded translation pipeline

    A shallow embedding of [src/pipeline.py], of
    [src/transcription/whisper_engine.py], of
    [src/translation/ollama_engine.py] and of the part of
    [src/audio/capture.py] that the pipeline drives, and the properties of
    the streaming pipeline proved or refuted on it.

    Conventions of the embedding.
    - A Python [str] is the list of its code points.
    - A Python [int] is a [Z]; a Python [float] (durations, samples, the
      coverage figure) is a [Q]: arithmetic on floats is exact here, rounding
      is not modelled.
    - An exception is a value of [exn]; code that can raise returns a
      [result], and code that mutates [self] before raising returns the
      mutated object together with a [completion].
    - What a collaborator outside the repository answers (the HTTP service,
      the recognition model, the audio host API, the clock) is an argument of
      the function that asks for it, and the requests a function issues are
      part of what it returns. *)

From Stdlib Require Import ZArith NArith QArith Qabs Bool String Ascii List Lia Lqa.
From Stdlib Require Import Reals Qreals Qround Sorted.
Import ListNotations.

Open Scope Z_scope.

(** ** Python strings *)

Module PyStr.

Definition str := list N.

(** An ASCII literal of the source. *)
Definition lit (s : string) : str := map N_of_ascii (list_ascii_of_string s).

Definition eqb (a b : str) : bool :=
  if list_eq_dec N.eq_dec a b then true else false.

(** [str.isspace] on one code point: the code points whose bidirectional
    class is WS, B or S, or whose category is Zs. *)
Definition isspace (c : N) : bool :=
  ((9 <=? c) && (c <=? 13) || (28 <=? c) && (c <=? 32)
   || (c =? 133) || (c =? 160) || (c =? 5760)
   || (8192 <=? c) && (c <=? 8202) || (c =? 8232) || (c =? 8233)
   || (c =? 8239) || (c =? 8287) || (c =? 12288))%N.

Fixpoint lstrip (s : str) : str :=
  match s with
  | [] => []
  | c :: r => if isspace c then lstrip r else s
  end.

Definition rstrip (s : str) : str := rev (lstrip (rev s)).

(** [s.strip()] *)
Definition strip (s : str) : str := rstrip (lstrip s).

Fixpoint startswith (s p : str) : bool :=
  match p, s with
  | [], _ => true
  | _ :: _, [] => false
  | c :: p', d :: s' => (c =? d)%N && startswith s' p'
  end.

Definition endswith (s p : str) : bool := startswith (rev s) (rev p).

(** [s[1:-1]] *)
Definition slice_1_m1 (s : str) : str := removelast (tl s).

(** [s[n:]] *)
Definition slice_from (n : nat) (s : str) : str := skipn n s.

(** Truth value of a string: [not s] is [negb (truthy s)]. *)
Definition truthy (s : str) : bool :=
  match s with [] => false | _ :: _ => true end.

End PyStr.

Import PyStr.

(** [str.lower] is a table of the Unicode database, which is not part of the
    repository: it is an operation of the class below. *)
Class Unicode := { str_lower : str -> str }.

(** ** Exceptions and results *)

Inductive exn : Type :=
| Full                 (* queue.Full *)
| Empty                (* queue.Empty *)
| RuntimeError
| ConnectionError      (* requests.ConnectionError *)
| Timeout              (* requests.Timeout *)
| AttributeError
| OtherException.      (* any other subclass of Exception *)

Inductive result (A : Type) : Type :=
| Return (a : A)
| Raise (e : exn).
Arguments Return {A} a.
Arguments Raise {A} e.

Definition bind {A B : Type} (r : result A) (k : A -> result B) : result B :=
  match r with
  | Return a => k a
  | Raise e => Raise e
  end.

Notation "'do' x <- r ; k" := (bind r (fun x => k))
  (at level 10, x name, r at level 100, k at level 200).

(** How a method that mutates its object ends. *)
Inductive completion : Type :=
| Normal
| Raised (e : exn).

(** ** [queue.Queue] *)

Module Queue.

Section Queue.
Context {A : Type}.

(** [maxsize <= 0] means unbounded, as in the standard library. *)
Record t := { maxsize : Z; items : list A }.

Definition make (n : Z) : t := {| maxsize := n; items := [] |}.

Definition qsize (q : t) : Z := Z.of_nat (length (items q)).

Definition full (q : t) : bool := (0 <? maxsize q) && (maxsize q <=? qsize q).

(** [put_nowait]: never waits; raises [Full] on a full queue. *)
Definition put_nowait (x : A) (q : t) : result t :=
  if full q then Raise Full
  else Return {| maxsize := maxsize q; items := items q ++ [x] |}.

(** [get_nowait]: never waits; raises [Empty] on an empty queue. *)
Definition get_nowait (q : t) : result (A * t) :=
  match items q with
  | [] => Raise Empty
  | x :: r => Return (x, {| maxsize := maxsize q; items := r |})
  end.

(** [get(timeout=...)]: the wait lets other threads run; when it ends the
    queue is either still empty ([Empty] is raised) or its head is taken.
    The steps of the other threads are steps of their own in this model, so
    what remains of [get] is what [get_nowait] does. *)
Definition get (timeout : Q) (q : t) : result (A * t) := get_nowait q.

End Queue.
Arguments t A : clear implicits.

End Queue.

(** ** Numeric helpers ([numpy] on one-dimensional arrays of samples) *)

Definition Qltb (a b : Q) : bool := negb (Qle_bool b a).

Definition Qmaxb (a b : Q) : Q := if Qle_bool a b then b else a.

Definition sum_sq (a : list Q) : Q :=
  fold_right (fun x s => (x * x + s)%Q) 0%Q a.

(** [np.mean(audio ** 2)] *)
Definition mean_square (a : list Q) : Q :=
  (sum_sq a / inject_Z (Z.of_nat (length a)))%Q.

(** [np.sqrt(np.mean(audio ** 2)) < thr]: the square root is monotone on the
    non-negative numbers, so for [0 <= thr] the test is the same test on the
    squares (lemma [rms_below_sqrt] below). *)
Definition rms_below (a : list Q) (thr : Q) : bool :=
  Qltb (mean_square a) (thr * thr)%Q.

(** [np.max(np.abs(audio))] *)
Definition peak (a : list Q) : Q :=
  fold_right (fun x m => Qmaxb (Qabs x) m) 0%Q a.

(** The silence threshold, the literal [0.001] of both
    [Pipeline._audio_producer] and [WhisperEngine.transcribe]. *)
Definition silence_threshold : Q := (1 # 1000)%Q.

(** ** [src/transcription/whisper_engine.py] *)

Module WhisperEngine.

Record TranscriptSegment := {
  text : str;
  language : str;
  language_confidence : Q;
  start_time : Q;
  end_time : Q;
  transcription_time : Q
}.

Definition is_russian (s : TranscriptSegment) : bool :=
  PyStr.eqb (language s) (lit "ru").

Definition is_english (s : TranscriptSegment) : bool :=
  PyStr.eqb (language s) (lit "en").

(** The engine object; its [_model] attribute is the loaded model, which
    lives outside the repository and is reached through [ModelAnswer]. *)
Record t := {
  _model_name : str;
  _beam_size : Z;
  _device : str;
  _compute_type : str
}.

(** [__init__]: [WhisperModel(...)] either loads or raises; nothing guards
    it. *)
Definition init (load : result unit) (model_name device compute_type : str)
  (beam_size : Z) : result t :=
  do _ <- load;
  Return {| _model_name := model_name; _beam_size := beam_size;
            _device := device; _compute_type := compute_type |}.

(** The arguments of one call of [self._model.transcribe]. *)
Record ModelCall := {
  call_audio : list Q;
  call_beam_size : Z;
  call_language : option str;
  call_min_speech_duration_ms : Z;
  call_max_speech_duration_s : Z
}.

(** A segment as the model yields it; [seg_elapsed] is [time.time() - start]
    read when the segment is collected. *)
Record RawSegment := {
  seg_text : str;
  seg_start : Q;
  seg_end : Q;
  seg_elapsed : Q
}.

Record TranscriptionInfo := {
  info_language : str;
  language_probability : Q
}.

(** What the model answers: it raises at the call, or it returns a generator
    and the language information; the generator yields [segs] and then ends
    as [gen_end] says (a lazy generator can raise while it is consumed). *)
Inductive ModelAnswer : Type :=
| ModelRaises (e : exn)
| ModelYields (segs : list RawSegment) (gen_end : completion)
    (info : TranscriptionInfo).

(** [audio / peak] when the peak exceeds 1.0. *)
Definition normalize (a : list Q) : list Q :=
  let p := peak a in
  if Qltb 1 p then map (fun x => (x / p)%Q) a else a.

(** The loop that collects the results: segments whose stripped text is
    empty are skipped. *)
Fixpoint collect (info : TranscriptionInfo) (segs : list RawSegment)
  : list TranscriptSegment :=
  match segs with
  | [] => []
  | seg :: rest =>
      let text := strip (seg_text seg) in
      if negb (truthy text) then collect info rest
      else {| text := text;
              language := info_language info;
              language_confidence := language_probability info;
              start_time := seg_start seg;
              end_time := seg_end seg;
              transcription_time := seg_elapsed seg |} :: collect info rest
  end.

(** [transcribe]: the result, and the calls made to the model. The
    conversion to [float32] is the identity of this model. *)
Definition transcribe (w : t) (model : ModelCall -> ModelAnswer)
  (audio : option (list Q)) (language : option str)
  (min_speech_duration_ms max_speech_duration_s : Z)
  : result (list TranscriptSegment) * list ModelCall :=
  match audio with
  | None => (Return [], [])
  | Some a =>
      if (length a =? 0)%nat then (Return [], [])
      else
        let a := normalize a in
        if rms_below a silence_threshold then (Return [], [])
        else
          let call := {| call_audio := a;
                         call_beam_size := _beam_size w;
                         call_language := language;
                         call_min_speech_duration_ms := min_speech_duration_ms;
                         call_max_speech_duration_s := max_speech_duration_s |} in
          match model call with
          | ModelRaises e => (Raise e, [call])
          | ModelYields segs (Raised e) info => (Raise e, [call])
          | ModelYields segs Normal info => (Return (collect info segs), [call])
          end
  end.

(** The arguments of the call of [self._model.transcribe] made by
    [detect_language]: the audio and the beam size; no language and no
    voice-activity parameters are passed. *)
Record DetectCall := {
  detect_audio : list Q;
  detect_beam_size : Z
}.

(** [detect_language]: the result, and the calls made to the model. At most
    the first 30 seconds (at 16 kHz) are passed on; the generator the model
    returns is dropped unconsumed, so only an exception at the call itself
    can leave the function. *)
Definition detect_language (w : t) (model : DetectCall -> ModelAnswer)
  (audio : option (list Q)) : result (str * Q) * list DetectCall :=
  match audio with
  | None => (Return (lit "unknown", 0%Q), [])
  | Some a =>
      if (length a =? 0)%nat then (Return (lit "unknown", 0%Q), [])
      else
        let max_samples := 30 * 16000 in
        let a := if max_samples <? Z.of_nat (length a)
                 then firstn (Z.to_nat max_samples) a else a in
        let call := {| detect_audio := a; detect_beam_size := 1 |} in
        match model call with
        | ModelRaises e => (Raise e, [call])
        | ModelYields _ _ info =>
            (Return (info_language info, language_probability info), [call])
        end
  end.

End WhisperEngine.

(** ** [src/translation/ollama_engine.py] *)

Module OllamaEngine.

Record TranslationResult := {
  source_text : str;
  translated_text : str;
  source_language : str;
  target_language : str;
  translation_time : Q;
  model : str
}.

(** The two system prompts are constants of [__init__]; they are kept by
    name. *)
Inductive Prompt : Type := PromptRuToEn | PromptEnToRu.

Record t := {
  _base_url : str;
  _model : str;
  _timeout : Z
}.

(** The body of the request [POST /api/chat]; its other fields ([stream],
    [options]) are constants. *)
Record Payload := {
  payload_model : str;
  payload_system : Prompt;
  payload_user : str
}.

(** What the exchange inside the [try] of [translate] comes to:
    [requests.post], [raise_for_status], [resp.json()] and
    [data["message"]["content"]] either give the content string or one of
    them raises. *)
Inductive HttpAnswer : Type :=
| HttpRaises (e : exn)
| HttpContent (content : str).

(** One exchange with the service: the answer to the request sent, and
    [time.time() - start] as read after it. *)
Record ChatExchange := {
  answer : Payload -> HttpAnswer;
  elapsed : Q
}.

(** The answer to [GET /api/tags] of [_verify_connection]. *)
Inductive TagsAnswer : Type :=
| TagsRaises (e : exn)
| TagsStatus (status_code : Z) (model_names : list str).

(** What [_verify_connection] prints. *)
Inductive ConnectionReport : Type :=
| Connected
| ModelNotFound
| CannotConnect
| CheckFailed.

(** [a in b] on strings. *)
Fixpoint contains (b a : str) : bool :=
  startswith b a || match b with [] => false | _ :: r => contains r a end.

(** [_verify_connection]: every exception is caught and printed; the
    built-in [ConnectionError] raised on a status other than 200 is not
    [requests.ConnectionError] and falls to the last handler. *)
Definition _verify_connection (e : t) (tags : TagsAnswer) : ConnectionReport :=
  match tags with
  | TagsRaises ConnectionError => CannotConnect
  | TagsRaises _ => CheckFailed
  | TagsStatus code names =>
      if negb (code =? 200) then CheckFailed
      else if existsb (fun name => contains name (_model e) || contains (_model e) name) names
           then Connected else ModelNotFound
  end.

(** [__init__]: stores the settings and verifies the connection; it cannot
    raise. *)
Definition init (tags : TagsAnswer) (base_url model : str) (timeout : Z)
  : t * ConnectionReport :=
  let e := {| _base_url := base_url; _model := model; _timeout := timeout |} in
  (e, _verify_connection e tags).

Definition preambles : list str :=
  [ lit "Here is the translation:";
    lit "Translation:";
    lit "Here's the translation:";
    [1055; 1077; 1088; 1077; 1074; 1086; 1076; 58]%N;
    [1042; 1086; 1090; 32; 1087; 1077; 1088; 1077; 1074; 1086; 1076; 58]%N ].

Definition unquote (quote : N) (text : str) : str :=
  if startswith text [quote] && endswith text [quote]
  then slice_1_m1 text else text.

(** [_clean_output]: 34 and 39 are the double and the single quote. *)
Definition _clean_output `{Unicode} (text : str) : str :=
  let text := unquote 34%N text in
  let text := unquote 39%N text in
  let text :=
    fold_left
      (fun text p =>
         if startswith (str_lower text) (str_lower p)
         then strip (slice_from (length p) text) else text)
      preambles text in
  strip text.

(** The selection of the direction: the system prompt and the target
    language, or nothing for an unknown source language. *)
Definition direction (source_language : str) : option (Prompt * str) :=
  if PyStr.eqb source_language (lit "ru") then Some (PromptRuToEn, lit "en")
  else if PyStr.eqb source_language (lit "en") then Some (PromptEnToRu, lit "ru")
  else None.

Definition make_payload (e : t) (system_prompt : Prompt) (text : str) : Payload :=
  {| payload_model := _model e;
     payload_system := system_prompt;
     payload_user := text |}.

(** [translate]: the result, and the requests posted. The three handlers
    ([requests.Timeout], [requests.ConnectionError], [Exception]) all return
    [None]. *)
Definition translate `{Unicode} (e : t) (ex : ChatExchange)
  (text source_language : str) : option TranslationResult * list Payload :=
  if negb (truthy text) || negb (truthy (strip text)) then (None, [])
  else
    let text := strip text in
    match direction source_language with
    | None => (None, [])
    | Some (system_prompt, target_language) =>
        let payload := make_payload e system_prompt text in
        match answer ex payload with
        | HttpContent content =>
            let translated := _clean_output (strip content) in
            (Some {| source_text := text;
                     translated_text := translated;
                     source_language := source_language;
                     target_language := target_language;
                     translation_time := elapsed ex;
                     model := _model e |},
             [payload])
        | HttpRaises _ => (None, [payload])
        end
    end.

(** The text of the warm-up request. *)
Definition warm_up_text : str :=
  [1047; 1076; 1088; 1072; 1074; 1089; 1090; 1074; 1091; 1081; 1090; 1077]%N.

(** [warm_up]: one translation whose result only selects the line printed;
    [true] stands for "Warm-up complete", [false] for "Warm-up failed". *)
Definition warm_up `{Unicode} (e : t) (ex : ChatExchange) : bool * list Payload :=
  let (result, sent) := translate e ex warm_up_text (lit "ru") in
  (match result with Some _ => true | None => false end, sent).

End OllamaEngine.

(** ** [src/audio/capture.py]: the part the pipeline drives *)

Module AudioCapture.

Record AudioDevice := {
  index : Z;
  name : str;
  channels : Z;
  sample_rate : Z;
  is_loopback : bool;
  is_default : bool
}.

(** The audio host API as the capture object meets it: whether
    [pyaudio.PyAudio()] succeeds, what [list_devices] finds (it swallows the
    errors of the enumeration itself), and whether the stream opens and
    starts. *)
Record Host := {
  pa_init : result unit;
  loopback_devices : list AudioDevice;
  pa_open : result unit;
  start_stream : result unit
}.

Record t := {
  _pa : bool;                       (* the PyAudio handle is held *)
  _stream : bool;                   (* a stream is open *)
  _is_capturing : bool;
  _audio_buffer : list (list Q);
  _device_index : option Z;
  _target_sample_rate : Z;
  _source_sample_rate : option Z;
  _source_channels : option Z
}.

Definition init (h : Host) (device_index : option Z) (target_sample_rate : Z)
  : result t :=
  do _ <- pa_init h;
  Return {| _pa := true; _stream := false; _is_capturing := false;
            _audio_buffer := []; _device_index := device_index;
            _target_sample_rate := target_sample_rate;
            _source_sample_rate := None; _source_channels := None |}.

Definition get_default_loopback_device (h : Host) : option AudioDevice :=
  match find is_default (loopback_devices h) with
  | Some dev => Some dev
  | None => hd_error (loopback_devices h)
  end.

(** [a or b] on optional integers: [None] and [0] are false. *)
Definition or_index (a b : option Z) : option Z :=
  match a with
  | None => b
  | Some i => if i =? 0 then b else a
  end.

(** The device [start] settles on, or [RuntimeError]. *)
Definition resolve_device (h : Host) (idx : option Z) : result AudioDevice :=
  match idx with
  | None =>
      match get_default_loopback_device h with
      | None => Raise RuntimeError
      | Some device => Return device
      end
  | Some i =>
      match find (fun d => index d =? i) (loopback_devices h) with
      | None => Raise RuntimeError
      | Some device => Return device
      end
  end.

(** [start]: the object is mutated step by step, so an exception leaves it
    as far as the steps before went. *)
Definition start (h : Host) (device_index : option Z) (c : t) : t * completion :=
  if _is_capturing c then (c, Normal)
  else
    match resolve_device h (or_index device_index (_device_index c)) with
    | Raise e => (c, Raised e)
    | Return device =>
        let c1 := {| _pa := _pa c; _stream := _stream c;
                     _is_capturing := _is_capturing c;
                     _audio_buffer := [];
                     _device_index := _device_index c;
                     _target_sample_rate := _target_sample_rate c;
                     _source_sample_rate := Some (sample_rate device);
                     _source_channels := Some (channels device) |} in
        match pa_open h with
        | Raise e => (c1, Raised e)
        | Return _ =>
            let c2 := {| _pa := _pa c1; _stream := true;
                         _is_capturing := true;
                         _audio_buffer := _audio_buffer c1;
                         _device_index := _device_index c1;
                         _target_sample_rate := _target_sample_rate c1;
                         _source_sample_rate := _source_sample_rate c1;
                         _source_channels := _source_channels c1 |} in
            match start_stream h with
            | Raise e => (c2, Raised e)
            | Return _ => (c2, Normal)
            end
        end
    end.

Definition stop (c : t) : t :=
  if negb (_is_capturing c) then c
  else {| _pa := _pa c; _stream := false; _is_capturing := false;
          _audio_buffer := _audio_buffer c;
          _device_index := _device_index c;
          _target_sample_rate := _target_sample_rate c;
          _source_sample_rate := _source_sample_rate c;
          _source_channels := _source_channels c |}.

Definition close (c : t) : t :=
  let c := stop c in
  {| _pa := false; _stream := _stream c; _is_capturing := _is_capturing c;
     _audio_buffer := _audio_buffer c;
     _device_index := _device_index c;
     _target_sample_rate := _target_sample_rate c;
     _source_sample_rate := _source_sample_rate c;
     _source_channels := _source_channels c |}.

(** [_audio_callback]: a block of samples from the host is appended to the
    buffer while the object is capturing, and ignored otherwise; the
    callback always asks the host to continue. *)
Definition _audio_callback (in_data : list Q) (c : t) : t :=
  if _is_capturing c
  then {| _pa := _pa c; _stream := _stream c; _is_capturing := _is_capturing c;
          _audio_buffer := _audio_buffer c ++ [in_data];
          _device_index := _device_index c;
          _target_sample_rate := _target_sample_rate c;
          _source_sample_rate := _source_sample_rate c;
          _source_channels := _source_channels c |}
  else c.

(** The rows of [raw.reshape(-1, ch)], for a length that [ch] divides. *)
Fixpoint rows (count ch : nat) (raw : list Q) : list (list Q) :=
  match count with
  | O => []
  | S count' => firstn ch raw :: rows count' ch (skipn ch raw)
  end.

(** The mean of one row. *)
Definition row_mean (row : list Q) : Q :=
  (fold_right Qplus 0 row / inject_Z (Z.of_nat (length row)))%Q.

(** [raw.reshape(-1, ch).mean(axis=1)]: [reshape] raises [ValueError] when
    [ch] does not divide the number of samples. *)
Definition reshape_mean (ch : Z) (raw : list Q) : result (list Q) :=
  if Z.of_nat (length raw) mod ch =? 0
  then Return (map row_mean
                 (rows (Z.to_nat (Z.of_nat (length raw) / ch)) (Z.to_nat ch) raw))
  else Raise OtherException.

(** The conversion to mono, made when the source has more than one
    channel. *)
Definition to_mono (c : t) (raw : list Q) : result (list Q) :=
  match _source_channels c with
  | Some ch => if 1 <? ch then reshape_mean ch raw else Return raw
  | None => Return raw
  end.

(** [int(x)] on a float: the integer part, towards zero. *)
Definition int_of (x : Q) : Z := Z.quot (Qnum x) (Z.pos (Qden x)).

(** [np.linspace(0, stop, num)]; a negative [num] raises [ValueError]. *)
Definition linspace (stop : Q) (num : Z) : result (list Q) :=
  if num <? 0 then Raise OtherException
  else if num =? 1 then Return [0%Q]
  else Return (map (fun k => (inject_Z (Z.of_nat k) * (stop / inject_Z (num - 1)))%Q)
                 (seq 0 (Z.to_nat num))).

(** [np.interp(x, np.arange(len(raw)), raw)] at one point, for a [raw] that
    is not empty: the ends of [raw] outside its range, and inside it the
    line between the two neighbours. *)
Definition interp (raw : list Q) (x : Q) : Q :=
  let last_index := Z.of_nat (length raw) - 1 in
  if Qle_bool x 0 then nth 0 raw 0%Q
  else if Qle_bool (inject_Z last_index) x then nth (Z.to_nat last_index) raw 0%Q
  else
    let j := Z.to_nat (Qfloor x) in
    (nth j raw 0 + (x - inject_Z (Qfloor x)) * (nth (S j) raw 0 - nth j raw 0))%Q.

(** The resampling used when [soxr] cannot be imported: linear
    interpolation at [int(len(raw) * ratio)] evenly spaced points;
    [np.interp] raises [ValueError] on an empty array. *)
Definition resample_fallback (raw : list Q) (source target : Z) : result (list Q) :=
  let ratio := (inject_Z target / inject_Z source)%Q in
  let new_length := int_of (inject_Z (Z.of_nat (length raw)) * ratio) in
  do indices <- linspace (inject_Z (Z.of_nat (length raw) - 1)) new_length;
  if (length raw =? 0)%nat then Raise OtherException
  else Return (map (interp raw) indices).

(** The resampling, made when the source rate is set and differs from the
    target rate; [soxr] is [soxr.resample] when the module can be imported
    and [None] when the import raises [ImportError]. *)
Definition resample (soxr : option (list Q -> Z -> Z -> result (list Q)))
  (c : t) (raw : list Q) : result (list Q) :=
  match _source_sample_rate c with
  | None => Return raw
  | Some source =>
      if (source =? 0) || (source =? _target_sample_rate c) then Return raw
      else
        match soxr with
        | Some soxr_resample => soxr_resample raw source (_target_sample_rate c)
        | None => resample_fallback raw source (_target_sample_rate c)
        end
  end.

(** [get_audio_chunk]: what it returns or raises, and the object
    afterwards. The buffer is read and cleared first, under the lock; the
    conversions come after. *)
Definition get_audio_chunk (soxr : option (list Q -> Z -> Z -> result (list Q)))
  (clear : bool) (c : t) : result (option (list Q)) * t :=
  match _audio_buffer c with
  | [] => (Return None, c)
  | _ :: _ =>
      let raw := concat (_audio_buffer c) in
      let c' := if clear
                then {| _pa := _pa c; _stream := _stream c;
                        _is_capturing := _is_capturing c;
                        _audio_buffer := [];
                        _device_index := _device_index c;
                        _target_sample_rate := _target_sample_rate c;
                        _source_sample_rate := _source_sample_rate c;
                        _source_channels := _source_channels c |}
                else c in
      (do mono <- to_mono c raw;
       do resampled <- resample soxr c mono;
       Return (Some resampled),
       c')
  end.

(** [get_audio_data]: the whole buffer, converted the same way; the buffer
    is left as it is. *)
Definition get_audio_data (soxr : option (list Q -> Z -> Z -> result (list Q)))
  (c : t) : result (option (list Q)) :=
  match _audio_buffer c with
  | [] => Return None
  | _ :: _ =>
      do mono <- to_mono c (concat (_audio_buffer c));
      do resampled <- resample soxr c mono;
      Return (Some resampled)
  end.






End AudioCapture.

(** ** [src/pipeline.py] *)

Module Pipeline.

Import WhisperEngine.

Record PipelineItem := {
  transcript : TranscriptSegment;
  translation : option OllamaEngine.TranslationResult;
  pharma_flags : list str;
  timestamp : Q
}.

(** [__post_init__]: a zero timestamp is replaced by the time of creation. *)
Definition post_init (now : Q) (item : PipelineItem) : PipelineItem :=
  if Qeq_bool (timestamp item) 0
  then {| transcript := transcript item; translation := translation item;
          pharma_flags := pharma_flags item; timestamp := now |}
  else item.

(** The dictionary [self._stats]: its six keys are created by [__init__] and
    only ever updated in place, so it is a record. *)
Record Stats := {
  chunks_captured : Z;
  chunks_transcribed : Z;
  chunks_translated : Z;
  chunks_dropped : Z;
  total_whisper_time : Q;
  total_translate_time : Q
}.

(** The pipeline object. [_threads] holds the names of the worker threads;
    the sink [_on_result] is not state: what a worker hands to it is part of
    what the worker returns. *)
Record t := {
  _segment_duration : Q;
  _device_index : option Z;
  _audio_queue : Queue.t (list Q);
  _transcript_queue : Queue.t TranscriptSegment;
  _running : bool;
  _threads : list string;
  _capture : option AudioCapture.t;
  _whisper : option WhisperEngine.t;
  _ollama : option OllamaEngine.t;
  _stats : Stats
}.

Definition set_audio_queue (q : Queue.t (list Q)) (p : t) : t :=
  {| _segment_duration := _segment_duration p; _device_index := _device_index p;
     _audio_queue := q; _transcript_queue := _transcript_queue p;
     _running := _running p; _threads := _threads p; _capture := _capture p;
     _whisper := _whisper p; _ollama := _ollama p; _stats := _stats p |}.

Definition set_transcript_queue (q : Queue.t TranscriptSegment) (p : t) : t :=
  {| _segment_duration := _segment_duration p; _device_index := _device_index p;
     _audio_queue := _audio_queue p; _transcript_queue := q;
     _running := _running p; _threads := _threads p; _capture := _capture p;
     _whisper := _whisper p; _ollama := _ollama p; _stats := _stats p |}.

Definition set_running (b : bool) (p : t) : t :=
  {| _segment_duration := _segment_duration p; _device_index := _device_index p;
     _audio_queue := _audio_queue p; _transcript_queue := _transcript_queue p;
     _running := b; _threads := _threads p; _capture := _capture p;
     _whisper := _whisper p; _ollama := _ollama p; _stats := _stats p |}.

Definition set_threads (l : list string) (p : t) : t :=
  {| _segment_duration := _segment_duration p; _device_index := _device_index p;
     _audio_queue := _audio_queue p; _transcript_queue := _transcript_queue p;
     _running := _running p; _threads := l; _capture := _capture p;
     _whisper := _whisper p; _ollama := _ollama p; _stats := _stats p |}.

Definition set_capture (c : option AudioCapture.t) (p : t) : t :=
  {| _segment_duration := _segment_duration p; _device_index := _device_index p;
     _audio_queue := _audio_queue p; _transcript_queue := _transcript_queue p;
     _running := _running p; _threads := _threads p; _capture := c;
     _whisper := _whisper p; _ollama := _ollama p; _stats := _stats p |}.

Definition set_whisper (w : option WhisperEngine.t) (p : t) : t :=
  {| _segment_duration := _segment_duration p; _device_index := _device_index p;
     _audio_queue := _audio_queue p; _transcript_queue := _transcript_queue p;
     _running := _running p; _threads := _threads p; _capture := _capture p;
     _whisper := w; _ollama := _ollama p; _stats := _stats p |}.

Definition set_ollama (e : option OllamaEngine.t) (p : t) : t :=
  {| _segment_duration := _segment_duration p; _device_index := _device_index p;
     _audio_queue := _audio_queue p; _transcript_queue := _transcript_queue p;
     _running := _running p; _threads := _threads p; _capture := _capture p;
     _whisper := _whisper p; _ollama := e; _stats := _stats p |}.

Definition set_stats (s : Stats) (p : t) : t :=
  {| _segment_duration := _segment_duration p; _device_index := _device_index p;
     _audio_queue := _audio_queue p; _transcript_queue := _transcript_queue p;
     _running := _running p; _threads := _threads p; _capture := _capture p;
     _whisper := _whisper p; _ollama := _ollama p; _stats := s |}.

(** [self._stats["chunks_captured"] += 1] *)
Definition count_captured (s : Stats) : Stats :=
  {| chunks_captured := chunks_captured s + 1;
     chunks_transcribed := chunks_transcribed s;
     chunks_translated := chunks_translated s;
     chunks_dropped := chunks_dropped s;
     total_whisper_time := total_whisper_time s;
     total_translate_time := total_translate_time s |}.

(** [self._stats["chunks_dropped"] += 1] *)
Definition count_dropped (s : Stats) : Stats :=
  {| chunks_captured := chunks_captured s;
     chunks_transcribed := chunks_transcribed s;
     chunks_translated := chunks_translated s;
     chunks_dropped := chunks_dropped s + 1;
     total_whisper_time := total_whisper_time s;
     total_translate_time := total_translate_time s |}.

(** [chunks_transcribed += 1], and the time of the first segment when there
    is one. *)
Definition count_transcribed (segments : list TranscriptSegment) (s : Stats) : Stats :=
  {| chunks_captured := chunks_captured s;
     chunks_transcribed := chunks_transcribed s + 1;
     chunks_translated := chunks_translated s;
     chunks_dropped := chunks_dropped s;
     total_whisper_time :=
       match segments with
       | [] => total_whisper_time s
       | first :: _ => (total_whisper_time s + transcription_time first)%Q
       end;
     total_translate_time := total_translate_time s |}.

(** [chunks_translated += 1], and the translation time when there is a
    result. *)
Definition count_translated (result : option OllamaEngine.TranslationResult)
  (s : Stats) : Stats :=
  {| chunks_captured := chunks_captured s;
     chunks_transcribed := chunks_transcribed s;
     chunks_translated := chunks_translated s + 1;
     chunks_dropped := chunks_dropped s;
     total_whisper_time := total_whisper_time s;
     total_translate_time :=
       match result with
       | None => total_translate_time s
       | Some r => (total_translate_time s + OllamaEngine.translation_time r)%Q
       end |}.

(** [__init__] *)
Definition init (segment_duration : Q) (device_index : option Z) : t :=
  {| _segment_duration := segment_duration;
     _device_index := device_index;
     _audio_queue := Queue.make 20;
     _transcript_queue := Queue.make 20;
     _running := false;
     _threads := [];
     _capture := None;
     _whisper := None;
     _ollama := None;
     _stats := {| chunks_captured := 0; chunks_transcribed := 0;
                  chunks_translated := 0; chunks_dropped := 0;
                  total_whisper_time := 0; total_translate_time := 0 |} |}.

(** How one iteration of a worker loop ends. *)
Inductive flow : Type :=
| Continue
| Break
| Throw (e : exn).

(** What [start] meets outside the repository. *)
Record StartupWorld := {
  whisper_load : result unit;
  ollama_tags : OllamaEngine.TagsAnswer;
  audio_host : AudioCapture.Host;
  warmup_chat : OllamaEngine.ChatExchange
}.

Definition worker_names : list string :=
  ["AudioProducer"; "WhisperWorker"; "OllamaWorker"]%string.

(** [start] *)
Definition start `{Unicode} (w : StartupWorld) (p : t) : t * completion :=
  if _running p then (p, Normal)
  else
    match WhisperEngine.init (whisper_load w) (lit "base") (lit "cpu") (lit "int8") 3 with
    | Raise e => (p, Raised e)
    | Return whisper =>
        let p := set_whisper (Some whisper) p in
        let (ollama, _) :=
          OllamaEngine.init (ollama_tags w) (lit "http://localhost:11434")
            (lit "qwen2.5:7b-instruct-q4_K_M") 30 in
        let p := set_ollama (Some ollama) p in
        match AudioCapture.init (audio_host w) (_device_index p) 16000 with
        | Raise e => (p, Raised e)
        | Return capture =>
            let p := set_capture (Some capture) p in
            let _ := OllamaEngine.warm_up ollama (warmup_chat w) in
            match AudioCapture.start (audio_host w) None capture with
            | (capture, Raised e) => (set_capture (Some capture) p, Raised e)
            | (capture, Normal) =>
                let p := set_capture (Some capture) p in
                let p := set_running true p in
                (set_threads worker_names p, Normal)
            end
        end
    end.

(** [_drain_queue]: [get_nowait] until [Empty] is raised; the number of
    items plus one bounds the number of turns. *)
Fixpoint drain_loop {A : Type} (turns : nat) (q : Queue.t A) : Queue.t A :=
  match turns with
  | O => q
  | S turns' =>
      match Queue.get_nowait q with
      | Raise _ => q
      | Return (_, q') => drain_loop turns' q'
      end
  end.

Definition _drain_queue {A : Type} (q : Queue.t A) : Queue.t A :=
  drain_loop (S (length (Queue.items q))) q.

(** What [_print_stats] prints. *)
Record StatsReport := {
  shown_captured : Z;
  shown_transcribed : Z;
  shown_translated : Z;
  shown_dropped : Z;
  avg_w : option Q;
  avg_t : option Q;
  coverage : Q
}.

(** [s["chunks_transcribed"] / s["chunks_captured"] * 100
     if s["chunks_captured"] > 0 else 0] *)
Definition coverage_of (s : Stats) : Q :=
  if 0 <? chunks_captured s
  then (inject_Z (chunks_transcribed s) / inject_Z (chunks_captured s) * 100)%Q
  else 0%Q.

Definition _print_stats (s : Stats) : StatsReport :=
  {| shown_captured := chunks_captured s;
     shown_transcribed := chunks_transcribed s;
     shown_translated := chunks_translated s;
     shown_dropped := chunks_dropped s;
     avg_w := if 0 <? chunks_transcribed s
              then Some (total_whisper_time s / inject_Z (chunks_transcribed s))%Q
              else None;
     avg_t := if 0 <? chunks_translated s
              then Some (total_translate_time s / inject_Z (chunks_translated s))%Q
              else None;
     coverage := coverage_of s |}.

(** [stop]: the state, how the call ends, and the statistics printed. The
    worker threads are joined with a bound and then forgotten. *)
Definition stop (p : t) : t * completion * option StatsReport :=
  if negb (_running p) then (p, Normal, None)
  else
    let p := set_running false p in
    let p := match _capture p with
             | Some c => set_capture (Some (AudioCapture.close (AudioCapture.stop c))) p
             | None => p
             end in
    let p := set_audio_queue (_drain_queue (_audio_queue p)) p in
    let p := set_transcript_queue (_drain_queue (_transcript_queue p)) p in
    let p := set_threads [] p in
    (p, Normal, Some (_print_stats (_stats p))).

(** The end of an iteration of [_audio_producer]: the chunk is put on the
    audio queue; on [Full] the oldest chunk is taken off first and the drop
    is counted. Only [queue.Empty] is handled around the second attempt. *)
Definition enqueue_audio (audio : list Q) (p : t) : t * completion :=
  match Queue.put_nowait audio (_audio_queue p) with
  | Return q => (set_audio_queue q p, Normal)
  | Raise Full =>
      match Queue.get_nowait (_audio_queue p) with
      | Return (_, q1) =>
          let p1 := set_audio_queue q1 p in
          match Queue.put_nowait audio q1 with
          | Return q2 =>
              let p2 := set_audio_queue q2 p1 in
              (set_stats (count_dropped (_stats p2)) p2, Normal)
          | Raise Empty => (p1, Normal)
          | Raise e => (p1, Raised e)
          end
      | Raise Empty => (p, Normal)
      | Raise e => (p, Raised e)
      end
  | Raise e => (p, Raised e)
  end.

(** One iteration of [_audio_producer], from the end of the sleep; [audio]
    is what [get_audio_chunk(clear=True)] returns. *)
Definition producer_body (audio : option (list Q)) (p : t) : t * flow :=
  if negb (_running p) then (p, Break)
  else
    match _capture p with
    | None => (p, Throw AttributeError)
    | Some _ =>
        match audio with
        | None => (p, Continue)
        | Some a =>
            if (length a =? 0)%nat then (p, Continue)
            else if rms_below a silence_threshold then (p, Continue)
            else
              let p := set_stats (count_captured (_stats p)) p in
              match enqueue_audio a p with
              | (p, Normal) => (p, Continue)
              | (p, Raised e) => (p, Throw e)
              end
        end
    end.

(** [_audio_producer] over the chunks the successive iterations obtain. *)
Fixpoint _audio_producer (chunks : list (option (list Q))) (p : t) : t * completion :=
  match chunks with
  | [] => (p, Normal)
  | audio :: rest =>
      if _running p then
        match producer_body audio p with
        | (p', Continue) => _audio_producer rest p'
        | (p', Break) => (p', Normal)
        | (p', Throw e) => (p', Raised e)
        end
      else (p, Normal)
  end.

(** The loop [for seg in segments] of [_whisper_worker]: the same two
    attempts as for the audio queue, without the statistics. *)
Fixpoint enqueue_segments (segments : list TranscriptSegment) (p : t) : t * completion :=
  match segments with
  | [] => (p, Normal)
  | seg :: rest =>
      match Queue.put_nowait seg (_transcript_queue p) with
      | Return q => enqueue_segments rest (set_transcript_queue q p)
      | Raise Full =>
          match Queue.get_nowait (_transcript_queue p) with
          | Return (_, q1) =>
              let p1 := set_transcript_queue q1 p in
              match Queue.put_nowait seg q1 with
              | Return q2 => enqueue_segments rest (set_transcript_queue q2 p1)
              | Raise Empty => enqueue_segments rest p1
              | Raise e => (p1, Raised e)
              end
          | Raise Empty => enqueue_segments rest p
          | Raise e => (p, Raised e)
          end
      | Raise e => (p, Raised e)
      end
  end.

(** One iteration of [_whisper_worker]; [model] is the recognition model as
    it answers during this iteration. The call of [transcribe] stands
    unguarded in the loop. *)
Definition whisper_body (model : ModelCall -> ModelAnswer) (p : t) : t * flow :=
  match Queue.get 1 (_audio_queue p) with
  | Raise Empty => (p, Continue)
  | Raise e => (p, Throw e)
  | Return (audio, q) =>
      let p := set_audio_queue q p in
      match _whisper p with
      | None => (p, Throw AttributeError)
      | Some whisper =>
          match fst (transcribe whisper model (Some audio) None 250 15) with
          | Raise e => (p, Throw e)
          | Return segments =>
              let p := set_stats (count_transcribed segments (_stats p)) p in
              match enqueue_segments segments p with
              | (p, Normal) => (p, Continue)
              | (p, Raised e) => (p, Throw e)
              end
          end
      end
  end.

(** [_whisper_worker] over the answers of the model to the successive
    iterations. *)
Fixpoint _whisper_worker (models : list (ModelCall -> ModelAnswer)) (p : t)
  : t * completion :=
  match models with
  | [] => (p, Normal)
  | model :: rest =>
      if _running p then
        match whisper_body model p with
        | (p', Continue) => _whisper_worker rest p'
        | (p', Break) => (p', Normal)
        | (p', Throw e) => (p', Raised e)
        end
      else (p, Normal)
  end.

(** What an iteration of [_ollama_worker] meets: the exchange with the
    translation service and the clock read for the item. *)
Record Tick := {
  chat : OllamaEngine.ChatExchange;
  now : Q
}.

(** One iteration of [_ollama_worker]: the state, how it ends, and the items
    handed to the sink. The sink is taken to return: it is the default
    display, which only prints, or a callback of the caller. *)
Definition ollama_body `{Unicode} (tick : Tick) (p : t)
  : t * flow * list PipelineItem :=
  match Queue.get 1 (_transcript_queue p) with
  | Raise Empty => (p, Continue, [])
  | Raise e => (p, Throw e, [])
  | Return (seg, q) =>
      let p := set_transcript_queue q p in
      match _ollama p with
      | None => (p, Throw AttributeError, [])
      | Some ollama =>
          let result :=
            fst (OllamaEngine.translate ollama (chat tick) (text seg) (language seg)) in
          let p := set_stats (count_translated result (_stats p)) p in
          let item :=
            post_init (now tick)
              {| transcript := seg; translation := result;
                 pharma_flags := []; timestamp := 0 |} in
          (p, Continue, [item])
      end
  end.

(** [_ollama_worker] over what the successive iterations meet. *)
Fixpoint _ollama_worker `{Unicode} (ticks : list Tick) (p : t)
  : t * completion * list PipelineItem :=
  match ticks with
  | [] => (p, Normal, [])
  | tick :: rest =>
      if _running p then
        match ollama_body tick p with
        | (p', Continue, out) =>
            let '(p'', c, out') := _ollama_worker rest p' in (p'', c, out ++ out')
        | (p', Break, out) => (p', Normal, out)
        | (p', Throw e, out) => (p', Raised e, out)
        end
      else (p, Normal, [])
  end.

(** The states of a pipeline: a fresh object, then any interleaving of calls
    of [start] and [stop] and of iterations of the three workers, each taken
    as one step. *)
Inductive step `{Unicode} : t -> t -> Prop :=
| step_start (w : StartupWorld) (p : t) : step p (fst (start w p))
| step_stop (p : t) : step p (fst (fst (stop p)))
| step_producer (audio : option (list Q)) (p : t) :
    step p (fst (producer_body audio p))
| step_whisper (model : ModelCall -> ModelAnswer) (p : t) :
    step p (fst (whisper_body model p))
| step_ollama (tick : Tick) (p : t) :
    step p (fst (fst (ollama_body tick p))).

Inductive reachable `{Unicode} : t -> Prop :=
| reachable_init (segment_duration : Q) (device_index : option Z) :
    reachable (init segment_duration device_index)
| reachable_step (p p' : t) : reachable p -> step p p' -> reachable p'.

End Pipeline.

(** ** [main.py]: the checks before startup *)

Module Main.

(** What [check_prerequisites] can find wrong. *)
Inductive StartupError : Type :=
| PythonTooOld
| OllamaNotResponding
| CannotConnectToOllama
| PharmaDatabaseMissing.

(** [a < b] on tuples of integers: the first difference decides, and a
    proper prefix is smaller. *)
Fixpoint tuple_lt (a b : list Z) : bool :=
  match a, b with
  | _, [] => false
  | [], _ :: _ => true
  | x :: a', y :: b' => (x <? y) || ((x =? y) && tuple_lt a' b')
  end.

(** [check_prerequisites]: the errors collected, in the order of the
    checks. [version_info] is the numeric part of [sys.version_info],
    [tags_status] the status of [GET /api/tags] or the exception it raised,
    [database_exists] whether the pharma database file is there. *)
Definition check_prerequisites (version_info : list Z) (tags_status : result Z)
  (database_exists : bool) : list StartupError :=
  (if tuple_lt version_info [3; 10] then [PythonTooOld] else [])
  ++ match tags_status with
     | Return status => if negb (status =? 200) then [OllamaNotResponding] else []
     | Raise _ => [CannotConnectToOllama]
     end
  ++ (if negb database_exists then [PharmaDatabaseMissing] else []).

(** Whether [check_prerequisites] ends the process with [sys.exit(1)]. *)
Definition exits (version_info : list Z) (tags_status : result Z)
  (database_exists : bool) : bool :=
  match check_prerequisites version_info tags_status database_exists with
  | [] => false
  | _ :: _ => true
  end.

End Main.

(** * Properties *)

Import Pipeline.

(** ** Vocabulary of the statements *)

(** A run of pushes by the producer, one chunk after the other; it ends at
    the first push that raises. *)
Fixpoint enqueue_all (chunks : list (list Q)) (p : t) : t * completion :=
  match chunks with
  | [] => (p, Normal)
  | audio :: rest =>
      match enqueue_audio audio p with
      | (p', Normal) => enqueue_all rest p'
      | (p', Raised e) => (p', Raised e)
      end
  end.

(** The [c] last elements of a list, in their order. *)
Definition lastn {A : Type} (c : nat) (l : list A) : list A :=
  skipn (length l - c) l.

(** A queue within its bound. *)
Definition within_bound {A : Type} (q : Queue.t A) : Prop :=
  0 < Queue.maxsize q /\ Queue.qsize q <= Queue.maxsize q.

(** A chunk the producer lets through: not empty, and not below the silence
    threshold. *)
Definition audible (a : list Q) : Prop :=
  length a <> 0%nat /\ rms_below a silence_threshold = false.

(** How the construction and the start of the capture object end. *)
Definition capture_startup (h : AudioCapture.Host) (device_index : option Z)
  : completion :=
  match AudioCapture.init h device_index 16000 with
  | Raise e => Raised e
  | Return capture => snd (AudioCapture.start h None capture)
  end.

(** A segment whose text has a character that is not a space. *)
Definition nonblank (seg : WhisperEngine.TranscriptSegment) : Prop :=
  truthy (strip (WhisperEngine.text seg)) = true.


(** What every state of the pipeline satisfies: both queues within their
    bound, only segments with text in the transcript queue, no segment
    without a recognition engine and no recognition engine without a
    translation engine, and no more chunks transcribed or waiting than
    captured. *)
Record well_formed (p : t) : Prop := {
  wf_audio : within_bound (_audio_queue p);
  wf_transcript : within_bound (_transcript_queue p);
  wf_text : Forall nonblank (Queue.items (_transcript_queue p));
  wf_engines : _whisper p <> None -> _ollama p <> None;
  wf_source : _whisper p = None -> Queue.items (_transcript_queue p) = [];
  wf_counted : 0 <= chunks_transcribed (_stats p);
  wf_backlog :
    chunks_transcribed (_stats p) + Queue.qsize (_audio_queue p)
    <= chunks_captured (_stats p)
}.



(** A recognition model that answers: it raises neither at the call nor
    while its generator is consumed. *)
Definition answers (model : WhisperEngine.ModelCall -> WhisperEngine.ModelAnswer)
  : Prop :=
  forall call, exists segs info,
    model call = WhisperEngine.ModelYields segs Normal info.

(** The segments the engine returns for the chunks [audios], the model of
    each chunk being the one at the same place in [models]. *)
Fixpoint recognised (w : WhisperEngine.t)
  (models : list (WhisperEngine.ModelCall -> WhisperEngine.ModelAnswer))
  (audios : list (list Q)) : list WhisperEngine.TranscriptSegment :=
  match models, audios with
  | model :: models', audio :: audios' =>
      match fst (WhisperEngine.transcribe w model (Some audio) None 250 15) with
      | Return segments => segments ++ recognised w models' audios'
      | Raise _ => []
      end
  | _, _ => []
  end.

(** A string occurs in another. *)
Definition occurs_in (a b : str) : Prop := exists pre post, b = pre ++ a ++ post.

(** The capture object after the host has delivered [blocks], one callback
    for each. *)
Definition after_callbacks (blocks : list (list Q)) (c : AudioCapture.t)
  : AudioCapture.t :=
  fold_left (fun c block => AudioCapture._audio_callback block c) blocks c.

(** A source that needs no conversion: one channel at most, and the target
    rate (or no rate recorded). *)
Definition passthrough (c : AudioCapture.t) : Prop :=
  match AudioCapture._source_channels c with
  | Some ch => ch <= 1
  | None => True
  end /\
  match AudioCapture._source_sample_rate c with
  | Some rate => rate = 0 \/ rate = AudioCapture._target_sample_rate c
  | None => True
  end.

(** Stereo frames: left and right samples in turn. *)
Fixpoint interleave (left right : list Q) : list Q :=
  match left, right with
  | l :: left', r :: right' => l :: r :: interleave left' right'
  | _, _ => []
  end.

(** A segment whose text has no whitespace at either end. *)
Definition stripped (seg : WhisperEngine.TranscriptSegment) : Prop :=
  strip (WhisperEngine.text seg) = WhisperEngine.text seg.

(** ** Concrete data for the instances *)

(** A case mapping for the instances: the ASCII letters. *)
Definition ascii_lower : Unicode :=
  {| str_lower :=
       map (fun c => if ((65 <=? c) && (c <=? 90))%N then (c + 32)%N else c) |}.

Definition speaker : AudioCapture.AudioDevice :=
  {| AudioCapture.index := 3;
     AudioCapture.name := lit "Speakers [Loopback]";
     AudioCapture.channels := 2;
     AudioCapture.sample_rate := 48000;
     AudioCapture.is_loopback := true;
     AudioCapture.is_default := true |}.

Definition host_with (devices : list AudioCapture.AudioDevice) : AudioCapture.Host :=
  {| AudioCapture.pa_init := Return tt;
     AudioCapture.loopback_devices := devices;
     AudioCapture.pa_open := Return tt;
     AudioCapture.start_stream := Return tt |}.

(** A translation service that answers every request with [content]. *)
Definition service_says (content : str) : OllamaEngine.ChatExchange :=
  {| OllamaEngine.answer := fun _ => OllamaEngine.HttpContent content;
     OllamaEngine.elapsed := 1 |}.

(** A translation service that cannot be reached. *)
Definition service_down : OllamaEngine.ChatExchange :=
  {| OllamaEngine.answer := fun _ => OllamaEngine.HttpRaises ConnectionError;
     OllamaEngine.elapsed := 1 |}.

(** A translation engine as [Pipeline.start] constructs it. *)
Definition qwen : OllamaEngine.t :=
  {| OllamaEngine._base_url := lit "http://localhost:11434";
     OllamaEngine._model := lit "qwen2.5:7b-instruct-q4_K_M";
     OllamaEngine._timeout := 30 |}.

(** The recognition engine as [Pipeline.start] constructs it. *)
Definition base_whisper : WhisperEngine.t :=
  {| WhisperEngine._model_name := lit "base";
     WhisperEngine._beam_size := 3;
     WhisperEngine._device := lit "cpu";
     WhisperEngine._compute_type := lit "int8" |}.

(** Every collaborator available. *)
Definition world_up : StartupWorld :=
  {| whisper_load := Return tt;
     ollama_tags := OllamaEngine.TagsStatus 200 [lit "qwen2.5:7b-instruct-q4_K_M"];
     audio_host := host_with [speaker];
     warmup_chat := service_says (lit "Hello") |}.

(** Everything available but the translation service. *)
Definition world_without_service : StartupWorld :=
  {| whisper_load := Return tt;
     ollama_tags := OllamaEngine.TagsRaises ConnectionError;
     audio_host := host_with [speaker];
     warmup_chat := service_down |}.

(** A pipeline started with every collaborator available. *)
Definition started : t := fst (@start ascii_lower world_up (init 4 None)).

(** A chunk of speech (root mean square 1/2) and a chunk of silence. *)
Definition loud : list Q := [(1 # 2)%Q; (-1 # 2)%Q].
Definition quiet : list Q := [(1 # 10000)%Q; 0%Q].

(** A segment of recognised speech, and a model that hears it in every
    chunk. *)
Definition heard : WhisperEngine.RawSegment :=
  {| WhisperEngine.seg_text := lit " hello ";
     WhisperEngine.seg_start := 0;
     WhisperEngine.seg_end := 1;
     WhisperEngine.seg_elapsed := 1 # 2 |}.

Definition english : WhisperEngine.TranscriptionInfo :=
  {| WhisperEngine.info_language := lit "en";
     WhisperEngine.language_probability := 9 # 10 |}.

Definition model_hears (_ : WhisperEngine.ModelCall) : WhisperEngine.ModelAnswer :=
  WhisperEngine.ModelYields [heard] Normal english.

Definition model_fails (_ : WhisperEngine.ModelCall) : WhisperEngine.ModelAnswer :=
  WhisperEngine.ModelRaises OtherException.

Definition hello : WhisperEngine.TranscriptSegment :=
  {| WhisperEngine.text := lit "hello";
     WhisperEngine.language := lit "en";
     WhisperEngine.language_confidence := 9 # 10;
     WhisperEngine.start_time := 0;
     WhisperEngine.end_time := 1;
     WhisperEngine.transcription_time := 1 # 2 |}.

(** The greeting of the end-to-end scenario, in Russian, and a model that
    hears it. *)
Definition privet : str := [1055; 1088; 1080; 1074; 1077; 1090]%N.

Definition model_hears_privet (_ : WhisperEngine.ModelCall)
  : WhisperEngine.ModelAnswer :=
  WhisperEngine.ModelYields
    [{| WhisperEngine.seg_text := privet;
        WhisperEngine.seg_start := 0;
        WhisperEngine.seg_end := 1;
        WhisperEngine.seg_elapsed := 1 # 2 |}]
    Normal
    {| WhisperEngine.info_language := lit "ru";
       WhisperEngine.language_probability := 9 # 10 |}.

(** A pipeline that was started, captured a chunk of speech and recognised
    it: one segment waits in the transcript queue. *)
Definition listening : t :=
  fst (whisper_body model_hears
         (fst (producer_body (Some loud)
                 (fst (@start ascii_lower world_up (init 4 None)))))).

(** ** The bounded queue with drop-oldest *)

Lemma lastn_all {A : Type} (c : nat) (l : list A) :
  (length l <= c)%nat -> lastn c l = l.
Proof.
  intros Hle. unfold lastn.
  replace (length l - c)%nat with O by lia. reflexivity.
Qed.

Lemma lastn_length {A : Type} (c : nat) (l : list A) :
  length (lastn c l) = Nat.min (length l) c.
Proof. unfold lastn. rewrite length_skipn. lia. Qed.

Lemma lastn_app {A : Type} (c : nat) (l m : list A) :
  lastn c (lastn c l ++ m) = lastn c (l ++ m).
Proof.
  destruct (Nat.le_gt_cases (length l) c) as [Hle | Hgt].
  - now rewrite (lastn_all c l Hle).
  - unfold lastn at 1 3.
    rewrite !length_app, lastn_length.
    replace (Nat.min (length l) c + length m - c)%nat with (length m) by lia.
    replace (length l + length m - c)%nat with (length m + (length l - c))%nat by lia.
    rewrite <- skipn_skipn. f_equal.
    unfold lastn. rewrite skipn_app.
    replace (length l - c - length l)%nat with O by lia. reflexivity.
Qed.

Lemma put_nowait_room {A : Type} (x : A) (q : Queue.t A) :
  Queue.qsize q < Queue.maxsize q ->
  Queue.put_nowait x q
  = Return {| Queue.maxsize := Queue.maxsize q; Queue.items := Queue.items q ++ [x] |}.
Proof.
  intros Hlt. unfold Queue.put_nowait, Queue.full.
  destruct (Queue.maxsize q <=? Queue.qsize q) eqn:E.
  - apply Z.leb_le in E. lia.
  - now rewrite andb_false_r.
Qed.

Lemma put_nowait_full {A : Type} (x : A) (q : Queue.t A) :
  0 < Queue.maxsize q -> Queue.maxsize q <= Queue.qsize q ->
  Queue.put_nowait x q = Raise Full.
Proof.
  intros Hpos Hle. unfold Queue.put_nowait, Queue.full.
  apply Z.ltb_lt in Hpos. apply Z.leb_le in Hle.
  now rewrite Hpos, Hle.
Qed.

(** One push of the producer on a queue within its bound: it ends normally,
    keeps the last [maxsize] items and counts a drop exactly when the queue
    was full; nothing else changes. *)
Lemma enqueue_audio_within (audio : list Q) (p : t) :
  within_bound (_audio_queue p) ->
  enqueue_audio audio p
  = (set_stats
       {| chunks_captured := chunks_captured (_stats p);
          chunks_transcribed := chunks_transcribed (_stats p);
          chunks_translated := chunks_translated (_stats p);
          chunks_dropped :=
            chunks_dropped (_stats p)
            + (if Queue.qsize (_audio_queue p) =? Queue.maxsize (_audio_queue p)
               then 1 else 0);
          total_whisper_time := total_whisper_time (_stats p);
          total_translate_time := total_translate_time (_stats p) |}
       (set_audio_queue
          {| Queue.maxsize := Queue.maxsize (_audio_queue p);
             Queue.items :=
               lastn (Z.to_nat (Queue.maxsize (_audio_queue p)))
                 (Queue.items (_audio_queue p) ++ [audio]) |}
          p),
     Normal).
Proof.
  destruct p as [sd di [C l] tq rn th cp wh ol st].
  unfold within_bound, Queue.qsize, enqueue_audio.
  cbn [_audio_queue _stats Queue.items Queue.maxsize].
  intros [Hpos Hle].
  destruct (Z.eq_dec (Z.of_nat (length l)) C) as [Heq | Hne].
  - rewrite put_nowait_full
      by (unfold Queue.qsize; cbn [Queue.items Queue.maxsize]; lia).
    apply Z.eqb_eq in Heq as Heqb. rewrite Heqb.
    unfold Queue.get_nowait. cbn [Queue.items Queue.maxsize].
    destruct l as [| x r]; [cbn [length] in Heq; lia |].
    rewrite put_nowait_room
      by (unfold Queue.qsize; cbn [Queue.items Queue.maxsize length] in *; lia).
    cbn [Queue.items Queue.maxsize].
    unfold lastn. rewrite length_app. cbn [length] in *.
    replace (S (length r) + 1 - Z.to_nat C)%nat with 1%nat by lia.
    destruct st; reflexivity.
  - rewrite put_nowait_room
      by (unfold Queue.qsize; cbn [Queue.items Queue.maxsize]; lia).
    apply Z.eqb_neq in Hne as Hneb. rewrite Hneb.
    rewrite lastn_all by (rewrite length_app; cbn [length]; lia).
    rewrite Z.add_0_r.
    destruct st; reflexivity.
Qed.

Lemma within_bound_after_push (audio : list Q) (p : t) :
  within_bound (_audio_queue p) ->
  within_bound (_audio_queue (fst (enqueue_audio audio p))).
Proof.
  intros Hb. rewrite (enqueue_audio_within audio p Hb).
  destruct Hb as [Hpos Hle].
  cbn [fst _audio_queue set_stats set_audio_queue].
  unfold within_bound, Queue.qsize. cbn [Queue.items Queue.maxsize].
  split; [exact Hpos |]. rewrite lastn_length. lia.
Qed.

(** A run of pushes from any queue within its bound. *)
Lemma enqueue_all_within (chunks : list (list Q)) :
  forall p : t,
    within_bound (_audio_queue p) ->
    let c := Queue.maxsize (_audio_queue p) in
    let p' := fst (enqueue_all chunks p) in
    snd (enqueue_all chunks p) = Normal /\
    Queue.maxsize (_audio_queue p') = c /\
    Queue.items (_audio_queue p')
    = lastn (Z.to_nat c) (Queue.items (_audio_queue p) ++ chunks) /\
    chunks_dropped (_stats p')
    = chunks_dropped (_stats p)
      + Z.max 0 (Queue.qsize (_audio_queue p) + Z.of_nat (length chunks) - c) /\
    chunks_captured (_stats p') = chunks_captured (_stats p).
Proof.
  induction chunks as [| audio rest IH]; intros p Hb; cbn zeta.
  - cbn [enqueue_all fst snd length]. rewrite app_nil_r.
    destruct Hb as [Hpos Hle].
    rewrite lastn_all by (unfold Queue.qsize in Hle; lia).
    repeat split; try reflexivity. lia.
  - cbn [enqueue_all].
    pose proof (within_bound_after_push audio p Hb) as Hb'.
    specialize (IH (fst (enqueue_audio audio p)) Hb'). cbn zeta in IH.
    rewrite (enqueue_audio_within audio p Hb) in *.
    cbn [fst snd] in *.
    destruct IH as (Hn & Hm & Hi & Hd & Hc).
    cbn [_audio_queue _stats set_stats set_audio_queue Queue.maxsize Queue.items
         chunks_dropped chunks_captured] in *.
    rewrite Hn, Hm, Hi, Hd, Hc. rewrite lastn_app, <- app_assoc.
    repeat split; try reflexivity.
    destruct Hb as [Hpos Hle].
    unfold Queue.qsize in *. cbn [Queue.items length] in *.
    rewrite lastn_length, length_app. cbn [length].
    destruct (Z.eqb_spec (Z.of_nat (length (Queue.items (_audio_queue p))))
                (Queue.maxsize (_audio_queue p))); lia.
Qed.

(** C1. [N] pushes by the producer, with no pop in between, onto an empty
    queue of capacity [C]: every push returns (none raises, none waits), the
    queue then holds [min N C] chunks, they are the last [C] chunks pushed in
    the order they were pushed, the newest chunk is at the tail, and the
    drop counter has grown by [max 0 (N - C)]. *)
Theorem drop_oldest_after_pushes :
  forall (C : Z) (chunks : list (list Q)) (p : t),
    0 < C ->
    _audio_queue p = Queue.make C ->
    let N := Z.of_nat (length chunks) in
    let p' := fst (enqueue_all chunks p) in
    snd (enqueue_all chunks p) = Normal /\
    Queue.qsize (_audio_queue p') = Z.min N C /\
    Queue.items (_audio_queue p') = skipn (Z.to_nat (N - C)) chunks /\
    chunks_dropped (_stats p') = chunks_dropped (_stats p) + Z.max 0 (N - C) /\
    (forall older newest, chunks = older ++ [newest] ->
       exists front, Queue.items (_audio_queue p') = front ++ [newest]).
Proof.
  intros C chunks p Hpos Hq N p'.
  assert (Hb : within_bound (_audio_queue p))
    by (rewrite Hq; unfold within_bound, Queue.qsize; cbn; lia).
  destruct (enqueue_all_within chunks p Hb) as (Hn & Hm & Hi & Hd & _).
  fold p' in Hm, Hi, Hd. rewrite Hq in Hi, Hd, Hm.
  cbn [Queue.make Queue.items Queue.maxsize app] in Hi, Hd, Hm.
  unfold Queue.qsize in Hd. cbn [Queue.items length] in Hd.
  assert (Hitems : Queue.items (_audio_queue p') = skipn (Z.to_nat (N - C)) chunks).
  { rewrite Hi. unfold lastn. f_equal. subst N. lia. }
  split; [exact Hn |]. split; [| split; [exact Hitems | split]].
  - unfold Queue.qsize. rewrite Hitems, length_skipn. subst N. lia.
  - rewrite Hd. f_equal.
  - intros older newest Hch. rewrite Hitems, Hch.
    rewrite skipn_app.
    assert (Hlen : length chunks = (length older + 1)%nat)
      by (rewrite Hch, length_app; reflexivity).
    replace (Z.to_nat (N - C) - length older)%nat with O by (subst N; lia).
    exists (skipn (Z.to_nat (N - C)) older). reflexivity.
Qed.

(** The theorem at three chunks and capacity two. *)
Lemma drop_oldest_after_pushes_witness :
  let p := set_audio_queue (Queue.make 2) (init 4 None) in
  let chunks := [[1%Q]; [2%Q]; [3%Q]] in
  0 < 2 /\
  _audio_queue p = Queue.make 2 /\
  Queue.items (_audio_queue (fst (enqueue_all chunks p))) = [[2%Q]; [3%Q]] /\
  chunks_dropped (_stats (fst (enqueue_all chunks p))) = 1.
Proof.
  intros p chunks.
  destruct (drop_oldest_after_pushes 2 chunks p) as (_ & _ & Hi & Hd & _).
  - lia.
  - reflexivity.
  - split; [lia |]. split; [reflexivity |]. split; [exact Hi | exact Hd].
Defined.

(** The loop of the producer over audible chunks, on a running pipeline
    whose audio queue is within its bound: each chunk is counted as
    captured and pushed as above. *)
Lemma audio_producer_within (chunks : list (list Q)) :
  forall p : t,
    _running p = true ->
    _capture p <> None ->
    within_bound (_audio_queue p) ->
    Forall audible chunks ->
    let c := Queue.maxsize (_audio_queue p) in
    let r := _audio_producer (map Some chunks) p in
    snd r = Normal /\
    Queue.maxsize (_audio_queue (fst r)) = c /\
    Queue.items (_audio_queue (fst r))
    = lastn (Z.to_nat c) (Queue.items (_audio_queue p) ++ chunks) /\
    chunks_captured (_stats (fst r))
    = chunks_captured (_stats p) + Z.of_nat (length chunks) /\
    chunks_dropped (_stats (fst r))
    = chunks_dropped (_stats p)
      + Z.max 0 (Queue.qsize (_audio_queue p) + Z.of_nat (length chunks) - c).
Proof.
  induction chunks as [| audio rest IH]; intros p Hrun Hcap Hb Hall; cbn zeta.
  - cbn [map _audio_producer fst snd length]. rewrite app_nil_r.
    destruct Hb as [Hpos Hle].
    rewrite lastn_all by (unfold Queue.qsize in Hle; lia).
    repeat split; lia.
  - apply Forall_cons_iff in Hall as [[Hlen Hrms] Hall].
    cbn [map _audio_producer]. rewrite Hrun.
    unfold producer_body. rewrite Hrun. cbn [negb].
    destruct (_capture p) as [capture |] eqn:Ec; [| now elim Hcap].
    apply Nat.eqb_neq in Hlen. rewrite Hlen, Hrms.
    set (p1 := set_stats (count_captured (_stats p)) p).
    assert (Hb1 : within_bound (_audio_queue p1)) by exact Hb.
    pose proof (within_bound_after_push audio p1 Hb1) as Hb2.
    rewrite (enqueue_audio_within audio p1 Hb1) in *.
    cbn [fst] in Hb2.
    match goal with
    | |- context [_audio_producer (map Some rest) ?p2] =>
        specialize (IH p2 Hrun ltac:(cbn; congruence) Hb2 Hall)
    end.
    cbn zeta in IH. destruct IH as (Hn & Hm & Hi & Hc & Hd).
    subst p1.
    cbn [_audio_queue _stats set_stats set_audio_queue count_captured
         Queue.maxsize Queue.items chunks_dropped chunks_captured] in *.
    rewrite Hn, Hm, Hi, Hc, Hd. rewrite lastn_app, <- app_assoc.
    destruct Hb as [Hpos Hle].
    unfold Queue.qsize in *. cbn [Queue.items length] in *.
    rewrite lastn_length, length_app. cbn [length].
    repeat split; try reflexivity; try lia.
    destruct (Z.eqb_spec (Z.of_nat (length (Queue.items (_audio_queue p))))
                (Queue.maxsize (_audio_queue p))); lia.
Qed.

(** ** Lifecycle: calls that find nothing to do *)

(** C6. [stop] on a pipeline that is not running and [start] on a pipeline
    that is running return at once: the pipeline object is the one it was
    (queues, engines, statistics, thread list and running flag), nothing is
    printed by [stop], and neither call raises. *)
Theorem idle_start_stop_noop :
  forall (U : Unicode) (w : StartupWorld) (p : t),
    (_running p = true -> start w p = (p, Normal)) /\
    (_running p = false -> stop p = (p, Normal, None)).
Proof.
  intros U w p. split; intros Hr.
  - unfold start. now rewrite Hr.
  - unfold stop. now rewrite Hr.
Qed.

Lemma idle_start_stop_noop_witness :
  (_running started = true /\
   @start ascii_lower world_without_service started = (started, Normal)) /\
  (_running (init 4 None) = false /\
   stop (init 4 None) = (init 4 None, Normal, None)).
Proof.
  split; split.
  - reflexivity.
  - apply (idle_start_stop_noop ascii_lower world_without_service started).
    reflexivity.
  - reflexivity.
  - apply (idle_start_stop_noop ascii_lower world_up (init 4 None)).
    reflexivity.
Defined.

(** ** The producer and silence *)



(** ** Blank text *)

Lemma lstrip_blank (s : str) : forallb isspace s = true -> lstrip s = [].
Proof.
  induction s as [| c r IH]; cbn [forallb lstrip]; [reflexivity |].
  intros H. apply andb_true_iff in H as [Hc Hr]. rewrite Hc. auto.
Qed.

Lemma strip_blank (s : str) : forallb isspace s = true -> strip s = [].
Proof. intros H. unfold strip, rstrip. now rewrite (lstrip_blank s H). Qed.

(** [lstrip] keeps a suffix, and what it keeps does not start with a
    space. *)
Lemma lstrip_suffix (s : str) : exists pre, s = pre ++ lstrip s.
Proof.
  induction s as [| c r [pre IH]]; cbn [lstrip].
  - now exists [].
  - destruct (isspace c).
    + exists (c :: pre). cbn [app]. now f_equal.
    + now exists [].
Qed.

Lemma lstrip_head (s : str) :
  match lstrip s with
  | [] => forallb isspace s = true
  | c :: _ => isspace c = false
  end.
Proof.
  induction s as [| c r IH]; cbn [lstrip forallb]; [reflexivity |].
  destruct (isspace c) eqn:E; cbn [andb]; [exact IH | exact E].
Qed.

Lemma lstrip_fixed (s : str) :
  match s with [] => True | c :: _ => isspace c = false end -> lstrip s = s.
Proof. destruct s as [| c r]; cbn [lstrip]; [easy |]. now intros ->. Qed.

Lemma forallb_rev {A : Type} (f : A -> bool) (l : list A) :
  forallb f (rev l) = forallb f l.
Proof.
  induction l as [| a l IH]; [reflexivity |].
  cbn [rev forallb]. rewrite forallb_app, IH. cbn [forallb].
  rewrite andb_true_r. apply andb_comm.
Qed.

(** Stripping a string that is not all spaces leaves a string that starts
    and ends with a character that is not a space. *)
Lemma strip_ends (s : str) :
  strip s <> [] ->
  exists a mid, isspace a = false /\
    (strip s = [a] \/ exists z, isspace z = false /\ strip s = a :: mid ++ [z]).
Proof.
  unfold strip, rstrip. intros Hne.
  pose proof (lstrip_head (rev (lstrip s))) as Hlast.
  destruct (lstrip (rev (lstrip s))) as [| z w] eqn:Ew; [now elim Hne |].
  destruct (lstrip_suffix (rev (lstrip s))) as [pre Hpre].
  rewrite Ew in Hpre.
  assert (Hl : lstrip s = rev w ++ z :: rev pre).
  { rewrite <- (rev_involutive (lstrip s)), Hpre, rev_app_distr.
    cbn [rev]. now rewrite <- app_assoc. }
  pose proof (lstrip_head s) as Hfirst. rewrite Hl in Hfirst.
  cbn [rev].
  destruct (rev w) as [| a mid] eqn:Erw.
  - exists z, []. cbn [app] in *. split; [exact Hlast | now left].
  - exists a, mid. cbn [app] in *. split; [exact Hfirst |].
    right. exists z. split; [exact Hlast | reflexivity].
Qed.

(** A stripped string is left as it is by [strip]. *)
Lemma strip_idempotent (s : str) : strip (strip s) = strip s.
Proof.
  destruct (list_eq_dec N.eq_dec (strip s) []) as [E | Hne]; [now rewrite E |].
  destruct (strip_ends s Hne) as (a & mid & Ha & [E | (z & Hz & E)]); rewrite E.
  - unfold strip, rstrip. cbn [lstrip rev app]. rewrite Ha. cbn [rev app lstrip].
    now rewrite Ha.
  - unfold strip, rstrip. rewrite (lstrip_fixed (a :: mid ++ [z]) Ha).
    change (a :: mid ++ [z]) with ((a :: mid) ++ [z]).
    rewrite rev_app_distr. cbn [rev app lstrip]. rewrite Hz.
    cbn [rev]. rewrite rev_app_distr, rev_involutive. cbn [rev app].
    reflexivity.
Qed.

Lemma truthy_nonempty (s : str) : truthy s = true <-> s <> [].
Proof. destruct s; cbn; split; congruence. Qed.

(** ** [OllamaEngine.translate] *)

(** C9. On a text that is empty or all whitespace [translate] returns
    [None] and posts no request, whatever the source language; a result it
    returns carries the stripped text as source text, the tag it was given
    as source language, and the other of the two tags as target language;
    and it does return a result when the text is not blank, the tag is one
    of the two and the service answers with a content. *)
Theorem translate_blank_or_labelled :
  forall (U : Unicode) (e : OllamaEngine.t) (ex : OllamaEngine.ChatExchange)
         (text source_language : str),
    (forallb isspace text = true ->
     OllamaEngine.translate e ex text source_language = (None, [])) /\
    (forall r,
       fst (OllamaEngine.translate e ex text source_language) = Some r ->
       OllamaEngine.source_text r = strip text /\
       OllamaEngine.source_language r = source_language /\
       (source_language = lit "ru" /\ OllamaEngine.target_language r = lit "en" \/
        source_language = lit "en" /\ OllamaEngine.target_language r = lit "ru")) /\
    (forall prompt target content,
       strip text <> [] ->
       OllamaEngine.direction source_language = Some (prompt, target) ->
       OllamaEngine.answer ex (OllamaEngine.make_payload e prompt (strip text))
       = OllamaEngine.HttpContent content ->
       exists r, fst (OllamaEngine.translate e ex text source_language) = Some r).
Proof.
  intros U e ex text lang. split; [| split].
  - intros Hb. unfold OllamaEngine.translate.
    rewrite (strip_blank text Hb). cbn [truthy negb].
    now rewrite orb_true_r.
  - intros r. unfold OllamaEngine.translate, OllamaEngine.direction, PyStr.eqb.
    destruct (negb (truthy text) || negb (truthy (strip text))); [discriminate |].
    destruct (list_eq_dec N.eq_dec lang (lit "ru")) as [Eru | Nru].
    + destruct (OllamaEngine.answer ex _); [discriminate |].
      cbn [fst]. intros [= <-]. cbn. auto.
    + destruct (list_eq_dec N.eq_dec lang (lit "en")) as [Een | Nen];
        [| discriminate].
      destruct (OllamaEngine.answer ex _); [discriminate |].
      cbn [fst]. intros [= <-]. cbn. auto.
  - intros prompt target content Hne Hd Ha.
    unfold OllamaEngine.translate.
    assert (Hs : truthy (strip text) = true) by now apply truthy_nonempty.
    assert (Ht : truthy text = true)
      by (destruct text; [now elim Hne | reflexivity]).
    rewrite Ht, Hs, Hd, Ha. cbn [negb orb fst]. eexists. reflexivity.
Qed.

Lemma translate_blank_or_labelled_witness :
  (forallb isspace [32; 9; 160]%N = true /\
   @OllamaEngine.translate ascii_lower qwen (service_says (lit "Hello"))
     [32; 9; 160]%N (lit "ru") = (None, [])) /\
  (strip (lit " da ") <> [] /\
   exists r,
     fst (@OllamaEngine.translate ascii_lower qwen (service_says (lit "Hello"))
            (lit " da ") (lit "ru")) = Some r /\
     OllamaEngine.source_text r = lit "da" /\
     OllamaEngine.target_language r = lit "en").
Proof.
  pose proof (translate_blank_or_labelled ascii_lower qwen
                (service_says (lit "Hello")) (lit " da ") (lit "ru"))
    as (_ & Hlabel & Hsome).
  assert (Hne : strip (lit " da ") <> []) by discriminate.
  split; [| split; [exact Hne |]].
  - split; [reflexivity |].
    apply (translate_blank_or_labelled ascii_lower); reflexivity.
  - destruct (Hsome OllamaEngine.PromptRuToEn (lit "en") (lit "Hello")
                Hne eq_refl eq_refl) as [r Hr].
    exists r. split; [exact Hr |].
    destruct (Hlabel r Hr) as (Hs & _ & [[_ Ht] | [Hl _]]).
    + split; [exact Hs | exact Ht].
    + discriminate Hl.
Defined.

(** ** Silence in [WhisperEngine.transcribe] *)

Lemma Qltb_lt (a b : Q) : Qltb a b = true <-> (a < b)%Q.
Proof.
  unfold Qltb. rewrite negb_true_iff. split.
  - intros H. apply Qnot_le_lt. intros Hle.
    apply Qle_bool_iff in Hle. congruence.
  - intros H. destruct (Qle_bool b a) eqn:E; [| reflexivity].
    apply Qle_bool_iff in E. apply Qlt_not_le in H. contradiction.
Qed.

Lemma sum_sq_nonneg (a : list Q) : (0 <= sum_sq a)%Q.
Proof.
  induction a as [| x r IH]; cbn [sum_sq fold_right]; [apply Qle_refl |].
  fold (sum_sq r). nra.
Qed.


Lemma mean_square_nonneg (a : list Q) : (0 <= mean_square a)%Q.
Proof.
  destruct a as [| x r]; [discriminate |].
  unfold mean_square. apply Qle_shift_div_l.
  - change 0%Q with (inject_Z 0). rewrite <- Zlt_Qlt. cbn [length]. lia.
  - rewrite Qmult_0_l. apply sum_sq_nonneg.
Qed.

(** The test on the squares is the test on the root mean square: over the
    real numbers, [rms_below a thr] says that the square root of the mean
    square is below [thr]. *)
Lemma rms_below_sqrt (a : list Q) (thr : Q) :
  (0 <= thr)%Q ->
  rms_below a thr = true <-> (sqrt (Q2R (mean_square a)) < Q2R thr)%R.
Proof.
  intros Ht. unfold rms_below. rewrite Qltb_lt.
  pose proof (mean_square_nonneg a) as Hm.
  apply Qle_Rle in Hm, Ht. rewrite RMicromega.Q2R_0 in Hm, Ht.
  split.
  - intros H. apply Qlt_Rlt in H. rewrite Q2R_mult in H.
    rewrite <- (sqrt_square (Q2R thr)) by exact Ht.
    apply sqrt_lt_1; [exact Hm | | exact H].
    apply Rmult_le_pos; exact Ht.
  - intros H. apply Rlt_Qlt. rewrite Q2R_mult.
    rewrite <- (sqrt_sqrt (Q2R (mean_square a))) by exact Hm.
    apply Rmult_le_0_lt_compat; try exact H; apply sqrt_pos.
Qed.





(** ** The recognition worker *)

(** C2, as the code has it: nothing in [_whisper_worker] or in
    [WhisperEngine.transcribe] catches an exception of the model. When
    [transcribe] raises on the chunk taken from the audio queue, the
    exception leaves the loop of the worker: the worker ends with that
    exception, whatever chunks are still to come, having produced no
    segment and counted nothing for the chunk. *)
Theorem whisper_worker_ends_on_exception :
  forall (model : WhisperEngine.ModelCall -> WhisperEngine.ModelAnswer)
         (rest : list (WhisperEngine.ModelCall -> WhisperEngine.ModelAnswer))
         (p : t) (audio : list Q) (q : Queue.t (list Q))
         (whisper : WhisperEngine.t) (e : exn),
    _running p = true ->
    Queue.get 1 (_audio_queue p) = Return (audio, q) ->
    _whisper p = Some whisper ->
    fst (WhisperEngine.transcribe whisper model (Some audio) None 250 15) = Raise e ->
    _whisper_worker (model :: rest) p = (set_audio_queue q p, Raised e).
Proof.
  intros model rest p audio q whisper e Hrun Hget Hw Hraise.
  cbn [_whisper_worker]. rewrite Hrun.
  unfold whisper_body. rewrite Hget.
  cbn [_whisper set_audio_queue]. rewrite Hw, Hraise. reflexivity.
Qed.

(** Two chunks of speech are queued; the model fails on the first and would
    hear the second: the worker ends on the first, the second chunk stays
    in the queue and nothing is transcribed. *)
Lemma whisper_worker_ends_on_exception_witness :
  let p := set_audio_queue {| Queue.maxsize := 20; Queue.items := [loud; loud] |} started in
  _running p = true /\
  snd (_whisper_worker [model_fails; model_hears] p) = Raised OtherException /\
  Queue.items (_audio_queue (fst (_whisper_worker [model_fails; model_hears] p))) = [loud] /\
  Queue.items (_transcript_queue (fst (_whisper_worker [model_fails; model_hears] p))) = [] /\
  chunks_transcribed (_stats (fst (_whisper_worker [model_fails; model_hears] p))) = 0.
Proof.
  intros p. split; [reflexivity |].
  rewrite (whisper_worker_ends_on_exception model_fails [model_hears] p loud
             {| Queue.maxsize := 20; Queue.items := [loud] |}
             base_whisper OtherException);
    try reflexivity.
  repeat split; reflexivity.
Defined.

(** The same worker, when the model answers, goes on to the next chunk. *)
Example whisper_worker_survives_good_chunks :
  let p := set_audio_queue {| Queue.maxsize := 20; Queue.items := [loud; loud] |} started in
  let r := _whisper_worker [model_hears; model_hears] p in
  snd r = Normal /\
  Queue.items (_transcript_queue (fst r)) = [hello; hello] /\
  chunks_transcribed (_stats (fst r)) = 2.
Proof. repeat split; reflexivity. Qed.

(** C4, as the code has it: the loop that pushes the segments evicts the
    oldest segment of a full transcript queue and admits the new one, and
    the drop counter stays where it was; only the producer counts. *)
Theorem transcript_eviction_not_counted :
  forall (model : WhisperEngine.ModelCall -> WhisperEngine.ModelAnswer)
         (p : t) (audio : list Q) (q : Queue.t (list Q))
         (whisper : WhisperEngine.t)
         (seg oldest : WhisperEngine.TranscriptSegment)
         (kept : list WhisperEngine.TranscriptSegment),
    Queue.get 1 (_audio_queue p) = Return (audio, q) ->
    _whisper p = Some whisper ->
    fst (WhisperEngine.transcribe whisper model (Some audio) None 250 15) = Return [seg] ->
    _transcript_queue p
    = {| Queue.maxsize := Z.of_nat (S (length kept)); Queue.items := oldest :: kept |} ->
    let p' := fst (whisper_body model p) in
    snd (whisper_body model p) = Continue /\
    Queue.items (_transcript_queue p') = kept ++ [seg] /\
    chunks_dropped (_stats p') = chunks_dropped (_stats p).
Proof.
  intros model p audio q whisper seg oldest kept Hget Hw Htr Hq.
  unfold whisper_body. rewrite Hget.
  cbn [_whisper set_audio_queue]. rewrite Hw, Htr.
  cbn [enqueue_segments set_stats set_audio_queue _transcript_queue _stats].
  rewrite Hq.
  rewrite put_nowait_full
    by (unfold Queue.qsize; cbn [Queue.items Queue.maxsize length]; lia).
  cbn [Queue.get_nowait Queue.items Queue.maxsize].
  rewrite put_nowait_room
    by (unfold Queue.qsize; cbn [Queue.items Queue.maxsize length]; lia).
  cbn. repeat split; reflexivity.
Qed.

(** The transcript queue of a started pipeline holds twenty segments and a
    chunk of speech arrives: the oldest segment goes, the new one is
    admitted, and the statistics report no drop. *)
Lemma transcript_eviction_not_counted_witness :
  let old := {| WhisperEngine.text := lit "old";
                WhisperEngine.language := lit "en";
                WhisperEngine.language_confidence := 9 # 10;
                WhisperEngine.start_time := 0;
                WhisperEngine.end_time := 1;
                WhisperEngine.transcription_time := 1 # 2 |} in
  let p := set_transcript_queue
             {| Queue.maxsize := 20; Queue.items := old :: repeat hello 19 |}
             (set_audio_queue {| Queue.maxsize := 20; Queue.items := [loud] |} started) in
  Queue.items (_transcript_queue (fst (whisper_body model_hears p)))
  = repeat hello 19 ++ [hello] /\
  chunks_dropped (_stats (fst (whisper_body model_hears p))) = 0.
Proof.
  intros old p.
  destruct (transcript_eviction_not_counted model_hears p loud
              {| Queue.maxsize := 20; Queue.items := [] |}
              base_whisper hello old (repeat hello 19)
              eq_refl eq_refl eq_refl eq_refl) as (_ & Hi & Hd).
  split; [exact Hi | exact Hd].
Defined.

(** The producer, on a full audio queue, counts the drop. *)
Example audio_eviction_counted :
  let p := set_audio_queue {| Queue.maxsize := 20; Queue.items := repeat loud 20 |} started in
  chunks_dropped (_stats (fst (producer_body (Some loud) p))) = 1.
Proof. reflexivity. Qed.

(** ** Failures at startup *)

(** With no loopback device the capture cannot start. *)
Lemma no_device_no_capture (device_index : option Z) :
  capture_startup (host_with []) device_index = Raised RuntimeError.
Proof.
  unfold capture_startup, AudioCapture.init, AudioCapture.start. cbn.
  destruct device_index as [i |]; [destruct (i =? 0) |]; reflexivity.
Qed.

(** C5 does not hold as stated: with the translation service out of reach,
    both at the connection check and at the warm-up request, [start] returns
    normally and the pipeline is running with its three workers. *)
Lemma start_runs_without_translation_service :
  OllamaEngine.answer (warmup_chat world_without_service)
    (OllamaEngine.make_payload qwen
       OllamaEngine.PromptRuToEn OllamaEngine.warm_up_text)
  = OllamaEngine.HttpRaises ConnectionError /\
  _running (init 4 None) = false /\
  snd (@start ascii_lower world_without_service (init 4 None)) = Normal /\
  _running (fst (@start ascii_lower world_without_service (init 4 None))) = true /\
  _threads (fst (@start ascii_lower world_without_service (init 4 None))) = worker_names.
Proof. repeat split; reflexivity. Qed.

(** C5, amended. On a pipeline that is not running, a failure of the
    construction of the recognition engine, of the construction of the
    capture object or of the start of the capture (no loopback device, a
    stream that does not open) is raised to the caller of [start], the
    running flag stays false and no worker is created; when these three
    succeed [start] returns normally with the pipeline running. What the
    translation service answers, at the connection check or at the warm-up,
    has no part in it. *)
Theorem start_failure_leaves_stopped :
  forall (U : Unicode) (w : StartupWorld) (p : t),
    _running p = false ->
    let r := start w p in
    match whisper_load w with
    | Raise e =>
        snd r = Raised e /\ _running (fst r) = false /\ _threads (fst r) = _threads p
    | Return _ =>
        match capture_startup (audio_host w) (_device_index p) with
        | Raised e =>
            snd r = Raised e /\ _running (fst r) = false /\ _threads (fst r) = _threads p
        | Normal =>
            snd r = Normal /\ _running (fst r) = true /\ _threads (fst r) = worker_names
        end
    end.
Proof.
  intros U w p Hr. cbn zeta. unfold start, capture_startup. rewrite Hr.
  unfold WhisperEngine.init.
  destruct (whisper_load w) as [[] | e]; cbn [bind].
  - cbn [OllamaEngine.init set_ollama set_whisper _device_index].
    destruct (AudioCapture.init (audio_host w) (_device_index p) 16000)
      as [capture | e]; cbn [fst snd].
    + destruct (AudioCapture.start (audio_host w) None capture) as [c [| e]];
        cbn [fst snd]; repeat split; try reflexivity; exact Hr.
    + repeat split; try reflexivity; exact Hr.
  - cbn [fst snd]. repeat split; try reflexivity; exact Hr.
Qed.

(** The theorem with no loopback device on the host: [RuntimeError] reaches
    the caller and the pipeline is not running. *)
Lemma start_failure_leaves_stopped_witness :
  let w := {| whisper_load := Return tt;
              ollama_tags := OllamaEngine.TagsStatus 200 [];
              audio_host := host_with [];
              warmup_chat := service_says (lit "Hello") |} in
  _running (init 4 None) = false /\
  snd (@start ascii_lower w (init 4 None)) = Raised RuntimeError /\
  _running (fst (@start ascii_lower w (init 4 None))) = false.
Proof.
  intros w. split; [reflexivity |].
  pose proof (start_failure_leaves_stopped ascii_lower w (init 4 None) eq_refl)
    as H.
  cbn zeta in H. destruct H as (Hs & Hr & _).
  split; [exact Hs | exact Hr].
Defined.

(** ** The coverage figure *)

(** C8 does not hold as stated: the figure computed is a percentage, and
    with one chunk captured and transcribed it is 100, which is above 1.
    Nothing clamps it either: with counters that stood at one captured and
    two transcribed it would be 200. *)
Lemma coverage_above_one :
  let s := {| chunks_captured := 1; chunks_transcribed := 1;
              chunks_translated := 0; chunks_dropped := 0;
              total_whisper_time := 0; total_translate_time := 0 |} in
  let s' := {| chunks_captured := 1; chunks_transcribed := 2;
               chunks_translated := 0; chunks_dropped := 0;
               total_whisper_time := 0; total_translate_time := 0 |} in
  ((coverage (_print_stats s) == 100)%Q /\ ~ (coverage (_print_stats s) <= 1)%Q) /\
  (coverage (_print_stats s') == 200)%Q.
Proof.
  cbn zeta. split; [split |].
  - reflexivity.
  - intros H. vm_compute in H. apply H. reflexivity.
  - reflexivity.
Qed.

(** C8, amended. The coverage computed and shown is a percentage: for
    counters with [0 <= transcribed <= captured] it lies within [0, 100],
    and it is 0 when nothing was captured. *)
Theorem coverage_is_a_percentage :
  forall s : Stats,
    (0 <= chunks_transcribed s <= chunks_captured s ->
     (0 <= coverage (_print_stats s) <= 100)%Q) /\
    (chunks_captured s = 0 -> coverage (_print_stats s) = 0%Q).
Proof.
  intros s. cbn [_print_stats coverage]. unfold coverage_of. split.
  - intros [Ht Hc].
    destruct (0 <? chunks_captured s) eqn:E; [| split; [apply Qle_refl | discriminate]].
    apply Z.ltb_lt in E.
    set (c := inject_Z (chunks_captured s)).
    set (x := inject_Z (chunks_transcribed s)).
    assert (Hc' : (0 < c)%Q)
      by (subst c; change 0%Q with (inject_Z 0); now rewrite <- Zlt_Qlt).
    assert (Hx : (0 <= x)%Q)
      by (subst x; change 0%Q with (inject_Z 0); now rewrite <- Zle_Qle).
    assert (Hxc : (x <= c)%Q) by (subst x c; now rewrite <- Zle_Qle).
    assert (H0 : (0 <= x / c)%Q) by (apply Qle_shift_div_l; [exact Hc' | lra]).
    assert (H1 : (x / c <= 1)%Q) by (apply Qle_shift_div_r; [exact Hc' | lra]).
    split; lra.
  - intros ->. reflexivity.
Qed.

Lemma coverage_is_a_percentage_witness :
  let s := {| chunks_captured := 4; chunks_transcribed := 3;
              chunks_translated := 3; chunks_dropped := 0;
              total_whisper_time := 0; total_translate_time := 0 |} in
  let z := {| chunks_captured := 0; chunks_transcribed := 0;
              chunks_translated := 0; chunks_dropped := 0;
              total_whisper_time := 0; total_translate_time := 0 |} in
  (0 <= chunks_transcribed s <= chunks_captured s /\
   (0 <= coverage (_print_stats s) <= 100)%Q) /\
  (chunks_captured z = 0 /\ coverage (_print_stats z) = 0%Q).
Proof.
  intros s z. split; split.
  - cbn. lia.
  - apply (coverage_is_a_percentage s). cbn. lia.
  - reflexivity.
  - apply (coverage_is_a_percentage z). reflexivity.
Defined.

(** ** What holds in every state of the pipeline *)

Lemma Forall_lastn {A : Type} (P : A -> Prop) (c : nat) (l : list A) :
  Forall P l -> Forall P (lastn c l).
Proof.
  intros H. unfold lastn.
  rewrite <- (firstn_skipn (length l - c) l) in H.
  now apply Forall_app in H.
Qed.

(** The two attempts of a push, on a queue within its bound. *)
Lemma push_cases {A : Type} (x : A) (q : Queue.t A) :
  within_bound q ->
  let q' := {| Queue.maxsize := Queue.maxsize q;
               Queue.items := lastn (Z.to_nat (Queue.maxsize q)) (Queue.items q ++ [x]) |} in
  Queue.put_nowait x q = Return q' \/
  (Queue.put_nowait x q = Raise Full /\
   exists y q1, Queue.get_nowait q = Return (y, q1) /\ Queue.put_nowait x q1 = Return q').
Proof.
  destruct q as [C l]. unfold within_bound, Queue.qsize.
  cbn [Queue.items Queue.maxsize]. intros [Hpos Hle].
  destruct (Z.eq_dec (Z.of_nat (length l)) C) as [Heq | Hne].
  - right. split.
    + apply put_nowait_full; unfold Queue.qsize; cbn [Queue.items Queue.maxsize]; lia.
    + destruct l as [| y r]; [cbn [length] in Heq; lia |].
      exists y, {| Queue.maxsize := C; Queue.items := r |}. split; [reflexivity |].
      rewrite put_nowait_room
        by (unfold Queue.qsize; cbn [Queue.items Queue.maxsize length] in *; lia).
      cbn [Queue.items Queue.maxsize]. unfold lastn.
      rewrite length_app. cbn [length] in *.
      replace (S (length r) + 1 - Z.to_nat C)%nat with 1%nat by lia.
      reflexivity.
  - left.
    rewrite put_nowait_room
      by (unfold Queue.qsize; cbn [Queue.items Queue.maxsize]; lia).
    cbn [Queue.items Queue.maxsize].
    now rewrite lastn_all by (rewrite length_app; cbn [length]; lia).
Qed.

Lemma lastn_within {A : Type} (C : Z) (l : list A) :
  0 < C ->
  within_bound {| Queue.maxsize := C; Queue.items := lastn (Z.to_nat C) l |}.
Proof.
  intros Hpos. unfold within_bound, Queue.qsize.
  cbn [Queue.items Queue.maxsize]. rewrite lastn_length. lia.
Qed.

(** The loop over the segments, on a transcript queue within its bound:
    only the transcript queue changes, and it keeps its last [maxsize]
    items. *)
Lemma enqueue_segments_within (segments : list WhisperEngine.TranscriptSegment) :
  forall p : t,
    within_bound (_transcript_queue p) ->
    enqueue_segments segments p
    = (set_transcript_queue
         {| Queue.maxsize := Queue.maxsize (_transcript_queue p);
            Queue.items :=
              lastn (Z.to_nat (Queue.maxsize (_transcript_queue p)))
                (Queue.items (_transcript_queue p) ++ segments) |}
         p,
       Normal).
Proof.
  induction segments as [| seg rest IH]; intros p Hb.
  - cbn [enqueue_segments]. rewrite app_nil_r.
    destruct Hb as [Hpos Hle].
    rewrite lastn_all by (unfold Queue.qsize in Hle; lia).
    destruct p as [sd di aq [C l] rn th cp wh ol st]. reflexivity.
  - cbn [enqueue_segments].
    assert (Hb' : within_bound
                    {| Queue.maxsize := Queue.maxsize (_transcript_queue p);
                       Queue.items :=
                         lastn (Z.to_nat (Queue.maxsize (_transcript_queue p)))
                           (Queue.items (_transcript_queue p) ++ [seg]) |})
      by (apply lastn_within, Hb).
    destruct (push_cases seg (_transcript_queue p) Hb)
      as [Hput | (Hfull & y & q1 & Hget & Hput)]; cbn zeta in *.
    + rewrite Hput, IH by exact Hb'.
      cbn [_transcript_queue set_transcript_queue Queue.maxsize Queue.items].
      rewrite lastn_app, <- app_assoc. reflexivity.
    + rewrite Hfull, Hget. cbn zeta. rewrite Hput, IH by exact Hb'.
      cbn [_transcript_queue set_transcript_queue Queue.maxsize Queue.items].
      rewrite lastn_app, <- app_assoc. reflexivity.
Qed.

Lemma collect_nonblank (info : WhisperEngine.TranscriptionInfo)
  (segs : list WhisperEngine.RawSegment) :
  Forall nonblank (WhisperEngine.collect info segs).
Proof.
  induction segs as [| s r IH]; cbn [WhisperEngine.collect]; [constructor |].
  destruct (truthy (strip (WhisperEngine.seg_text s))) eqn:E; cbn [negb].
  - constructor; [| exact IH].
    unfold nonblank. cbn [WhisperEngine.text]. now rewrite strip_idempotent.
  - exact IH.
Qed.

Lemma transcribe_nonblank (w : WhisperEngine.t)
  (model : WhisperEngine.ModelCall -> WhisperEngine.ModelAnswer)
  (audio : option (list Q)) (language : option str) (ms mx : Z)
  (segments : list WhisperEngine.TranscriptSegment) :
  fst (WhisperEngine.transcribe w model audio language ms mx) = Return segments ->
  Forall nonblank segments.
Proof.
  unfold WhisperEngine.transcribe.
  destruct audio as [a |]; [| intros [= <-]; constructor].
  destruct (length a =? 0)%nat; [intros [= <-]; constructor |].
  destruct (rms_below _ _); [intros [= <-]; constructor |].
  destruct (model _) as [e | segs [| e] info]; cbn [fst]; try discriminate.
  intros [= <-]. apply collect_nonblank.
Qed.

Lemma get_nowait_items {A : Type} (q q' : Queue.t A) (x : A) :
  Queue.get_nowait q = Return (x, q') ->
  Queue.items q = x :: Queue.items q' /\ Queue.maxsize q' = Queue.maxsize q.
Proof.
  unfold Queue.get_nowait. destruct (Queue.items q) as [| y r]; [discriminate |].
  intros [= <- <-]. split; reflexivity.
Qed.

Lemma get_nowait_within {A : Type} (q q' : Queue.t A) (x : A) :
  Queue.get_nowait q = Return (x, q') -> within_bound q -> within_bound q'.
Proof.
  intros Hget [Hpos Hle]. apply get_nowait_items in Hget as [Hi Hm].
  unfold within_bound, Queue.qsize in *. rewrite Hm. rewrite Hi in Hle.
  cbn [length] in Hle. lia.
Qed.

Lemma get_nowait_raises {A : Type} (q : Queue.t A) (e : exn) :
  Queue.get_nowait q = Raise e -> e = Empty.
Proof.
  unfold Queue.get_nowait. destruct (Queue.items q); [| discriminate].
  now intros [= <-].
Qed.

Lemma drain_queue_empty {A : Type} (q : Queue.t A) :
  _drain_queue q = {| Queue.maxsize := Queue.maxsize q; Queue.items := [] |}.
Proof.
  unfold _drain_queue. destruct q as [C l]. cbn [Queue.items Queue.maxsize].
  induction l as [| x r IH]; [reflexivity |].
  cbn [length drain_loop Queue.get_nowait Queue.items Queue.maxsize]. exact IH.
Qed.

Ltac wf_finish :=
  first [ assumption | congruence | lia | solve [intuition congruence]
        | solve [auto] ].

Lemma init_well_formed (segment_duration : Q) (device_index : option Z) :
  well_formed (init segment_duration device_index).
Proof.
  constructor; cbn; unfold within_bound, Queue.qsize; cbn;
    try lia; try constructor; try reflexivity; congruence.
Qed.

Lemma start_well_formed (U : Unicode) (w : StartupWorld) (p : t) :
  well_formed p -> well_formed (fst (start w p)).
Proof.
  intros [Ha Ht Hx He Hs Hc Hb]. unfold start.
  destruct (_running p); [now constructor |].
  unfold WhisperEngine.init.
  destruct (whisper_load w) as [[] | e]; cbn [bind fst]; [| now constructor].
  cbn [OllamaEngine.init].
  destruct (AudioCapture.init _ _ _) as [capture | e]; cbn [fst].
  - destruct (AudioCapture.start _ _ _) as [c [| e]]; cbn [fst];
      constructor; cbn; try assumption; congruence.
  - constructor; cbn; try assumption; congruence.
Qed.

Lemma stop_well_formed (p : t) :
  well_formed p -> well_formed (fst (fst (stop p))).
Proof.
  intros [Ha Ht Hx He Hs Hc Hb]. unfold stop.
  destruct (_running p); cbn [negb fst]; [| now constructor].
  rewrite !drain_queue_empty. cbn [_capture set_running].
  destruct (_capture p); constructor; cbn;
    unfold within_bound, Queue.qsize in *; cbn;
    try assumption; try constructor; try reflexivity;
    try tauto; try lia.
Qed.

Lemma producer_well_formed (audio : option (list Q)) (p : t) :
  well_formed p -> well_formed (fst (producer_body audio p)).
Proof.
  intros Hwf. unfold producer_body.
  destruct (_running p); cbn [negb fst]; [| exact Hwf].
  destruct (_capture p); [| exact Hwf].
  destruct audio as [a |]; [| exact Hwf].
  destruct (length a =? 0)%nat; [exact Hwf |].
  destruct (rms_below a silence_threshold); [exact Hwf |].
  destruct Hwf as [Ha Ht Hx He Hs Hc Hb].
  rewrite enqueue_audio_within by exact Ha.
  cbn [fst _stats _audio_queue set_stats count_captured chunks_captured
       chunks_transcribed chunks_translated chunks_dropped].
  constructor; cbn; try assumption.
  - apply lastn_within, Ha.
  - unfold Queue.qsize in *. cbn [Queue.items].
    rewrite lastn_length, length_app. cbn [length]. lia.
Qed.

Lemma whisper_well_formed
  (model : WhisperEngine.ModelCall -> WhisperEngine.ModelAnswer) (p : t) :
  well_formed p -> well_formed (fst (whisper_body model p)).
Proof.
  intros Hwf. unfold whisper_body, Queue.get.
  destruct (Queue.get_nowait (_audio_queue p)) as [[audio q] | e] eqn:Hget.
  2:{ apply get_nowait_raises in Hget as ->. exact Hwf. }
  destruct Hwf as [Ha Ht Hx He Hs Hc Hb].
  pose proof (get_nowait_within _ _ _ Hget Ha) as Ha'.
  apply get_nowait_items in Hget as [Hi _].
  assert (Hq : Queue.qsize (_audio_queue p) = Queue.qsize q + 1)
    by (unfold Queue.qsize; rewrite Hi; cbn [length]; lia).
  cbn [_whisper set_audio_queue].
  destruct (_whisper p) as [whisper |] eqn:Ew.
  2:{ constructor; cbn; wf_finish. }
  destruct (fst (WhisperEngine.transcribe _ _ _ _ _ _)) as [segments | e] eqn:Etr.
  2:{ constructor; cbn; wf_finish. }
  apply transcribe_nonblank in Etr.
  rewrite enqueue_segments_within by exact Ht.
  constructor; cbn; try wf_finish.
  - apply lastn_within, Ht.
  - apply Forall_lastn, Forall_app. split; assumption.
Qed.

Lemma ollama_well_formed (U : Unicode) (tick : Tick) (p : t) :
  well_formed p -> well_formed (fst (fst (ollama_body tick p))).
Proof.
  intros Hwf. unfold ollama_body, Queue.get.
  destruct (Queue.get_nowait (_transcript_queue p)) as [[seg q] | e] eqn:Hget.
  2:{ apply get_nowait_raises in Hget as ->. exact Hwf. }
  destruct Hwf as [Ha Ht Hx He Hs Hc Hb].
  pose proof (get_nowait_within _ _ _ Hget Ht) as Ht'.
  apply get_nowait_items in Hget as [Hi _].
  rewrite Hi in Hx, Hs. apply Forall_inv_tail in Hx.
  assert (Hw : _whisper p <> None) by (intros E; now specialize (Hs E)).
  cbn [_ollama set_transcript_queue].
  destruct (_ollama p) as [ollama |] eqn:Eo; cbn [fst];
    constructor; cbn; wf_finish.
Qed.

(** Every state of the pipeline is well formed. *)
Lemma reachable_well_formed (U : Unicode) (p : t) :
  reachable p -> well_formed p.
Proof.
  induction 1 as [sd di | p p' _ IH Hstep].
  - apply init_well_formed.
  - destruct Hstep.
    + now apply start_well_formed.
    + now apply stop_well_formed.
    + now apply producer_well_formed.
    + now apply whisper_well_formed.
    + now apply ollama_well_formed.
Qed.

(** In every state of the pipeline the counters stand as
    [0 <= transcribed <= captured]. *)
Lemma reachable_counters (U : Unicode) (p : t) :
  reachable p ->
  0 <= chunks_transcribed (_stats p) <= chunks_captured (_stats p).
Proof.
  intros Hr. destruct (reachable_well_formed U p Hr) as [_ _ _ _ _ Hc Hb].
  unfold Queue.qsize in Hb. lia.
Qed.

(** ** The translation worker *)



(** In a well-formed pipeline the segment at the head of the transcript
    queue has text, and the translation engine is there to take it. *)
Lemma transcript_head_ready (p : t) (seg : WhisperEngine.TranscriptSegment)
  (q : Queue.t WhisperEngine.TranscriptSegment) :
  well_formed p ->
  Queue.get 1 (_transcript_queue p) = Return (seg, q) ->
  nonblank seg /\ exists ollama, _ollama p = Some ollama.
Proof.
  intros [_ _ Hx He Hs _ _] Hget.
  destruct (get_nowait_items _ _ _ Hget) as [Hi _].
  rewrite Hi in Hx, Hs. split; [now apply Forall_inv in Hx |].
  assert (Hw : _whisper p <> None) by (intros E; now specialize (Hs E)).
  destruct (_ollama p) as [ollama |]; [now exists ollama | now elim (He Hw)].
Qed.

Lemma ollama_body_running (U : Unicode) (tick : Tick) (p : t) :
  _running (fst (fst (ollama_body tick p))) = _running p.
Proof.
  unfold ollama_body.
  destruct (Queue.get 1 (_transcript_queue p)) as [[seg q] | []]; try reflexivity.
  cbn [_ollama set_transcript_queue]. destruct (_ollama p); reflexivity.
Qed.

(** The loop of the translation worker on a running, well-formed pipeline:
    as many iterations as there are segments waiting hand the sink one item
    for each of these segments, in their order, and the loop never ends
    with an exception, whatever the service answers. *)
Lemma ollama_worker_delivers_each (U : Unicode) (ticks : list Tick) :
  forall p : t,
    well_formed p ->
    _running p = true ->
    (length ticks <= length (Queue.items (_transcript_queue p)))%nat ->
    snd (fst (_ollama_worker ticks p)) = Normal /\
    map transcript (snd (_ollama_worker ticks p))
    = firstn (length ticks) (Queue.items (_transcript_queue p)).
Proof.
  induction ticks as [| tick rest IH]; intros p Hwf Hrun Hlen.
  - split; reflexivity.
  - cbn [_ollama_worker]. rewrite Hrun.
    destruct (Queue.items (_transcript_queue p)) as [| seg segs] eqn:Ei;
      [cbn [length] in Hlen; lia |].
    assert (Hget : Queue.get 1 (_transcript_queue p)
                   = Return (seg, {| Queue.maxsize := Queue.maxsize (_transcript_queue p);
                                     Queue.items := segs |}))
      by (unfold Queue.get, Queue.get_nowait; now rewrite Ei).
    destruct (transcript_head_ready p seg _ Hwf Hget) as (_ & ollama & Ho).
    pose proof (ollama_well_formed U tick p Hwf) as Hwf'.
    pose proof (ollama_body_running U tick p) as Hrun'.
    unfold ollama_body in *. rewrite Hget in *.
    cbn [_ollama set_transcript_queue] in *. rewrite Ho in *.
    cbn [fst] in Hwf', Hrun'. rewrite Hrun in Hrun'.
    specialize (IH _ Hwf' Hrun').
    cbn [_transcript_queue set_stats set_transcript_queue Queue.items] in IH.
    cbn [length] in Hlen. specialize (IH ltac:(lia)).
    destruct (_ollama_worker rest _) as [[p'' c] out].
    cbn [fst snd] in *. destruct IH as [Hc Hm].
    split; [exact Hc |].
    cbn [app map length firstn]. rewrite Hm. reflexivity.
Qed.


Lemma listening_reachable : @reachable ascii_lower listening.
Proof.
  unfold listening.
  repeat (eapply reachable_step; [| constructor]).
  apply reachable_init.
Qed.


(** End to end: a chunk recognised as one Russian segment and translated as
    "Hello" reaches the sink as one item with both. *)
Example end_to_end_privet :
  let p := fst (whisper_body model_hears_privet
                  (fst (producer_body (Some loud) started))) in
  exists item r,
    snd (@ollama_body ascii_lower
           {| chat := service_says (lit "Hello"); now := 7 |} p) = [item] /\
    WhisperEngine.text (transcript item) = privet /\
    WhisperEngine.language (transcript item) = lit "ru" /\
    translation item = Some r /\
    OllamaEngine.translated_text r = lit "Hello" /\
    OllamaEngine.target_language r = lit "en".
Proof. do 2 eexists. repeat split; reflexivity. Qed.

(** * Further properties of the pipeline *)

(** ** What each step does to the queues and to the statistics *)

Lemma start_frame (U : Unicode) (w : StartupWorld) (p : t) :
  _audio_queue (fst (start w p)) = _audio_queue p /\
  _transcript_queue (fst (start w p)) = _transcript_queue p /\
  _stats (fst (start w p)) = _stats p /\
  _segment_duration (fst (start w p)) = _segment_duration p /\
  _device_index (fst (start w p)) = _device_index p.
Proof.
  unfold start. destruct (_running p); [repeat split |].
  unfold WhisperEngine.init.
  destruct (whisper_load w) as [[] | e]; cbn [bind fst]; [| repeat split].
  cbn [OllamaEngine.init].
  destruct (AudioCapture.init _ _ _) as [capture | e]; cbn [fst];
    [| repeat split].
  destruct (AudioCapture.start _ _ _) as [c [| e]]; repeat split.
Qed.

Lemma stop_frame (p : t) :
  _stats (fst (fst (stop p))) = _stats p /\
  Queue.maxsize (_audio_queue (fst (fst (stop p)))) = Queue.maxsize (_audio_queue p) /\
  Queue.maxsize (_transcript_queue (fst (fst (stop p))))
  = Queue.maxsize (_transcript_queue p) /\
  (_running p = true ->
   Queue.items (_audio_queue (fst (fst (stop p)))) = [] /\
   Queue.items (_transcript_queue (fst (fst (stop p)))) = []).
Proof.
  unfold stop. destruct (_running p); cbn [negb fst].
  - rewrite !drain_queue_empty. cbn [_capture set_running].
    destruct (_capture p); repeat split.
  - repeat split; discriminate.
Qed.

(** An iteration of the producer either leaves the pipeline as it is or
    counts an audible chunk and pushes it. *)
Lemma producer_effect (audio : option (list Q)) (p : t) :
  within_bound (_audio_queue p) ->
  fst (producer_body audio p) = p \/
  exists a,
    audio = Some a /\ audible a /\
    fst (producer_body audio p)
    = set_stats
        {| chunks_captured := chunks_captured (_stats p) + 1;
           chunks_transcribed := chunks_transcribed (_stats p);
           chunks_translated := chunks_translated (_stats p);
           chunks_dropped :=
             chunks_dropped (_stats p)
             + (if Queue.qsize (_audio_queue p) =? Queue.maxsize (_audio_queue p)
                then 1 else 0);
           total_whisper_time := total_whisper_time (_stats p);
           total_translate_time := total_translate_time (_stats p) |}
        (set_audio_queue
           {| Queue.maxsize := Queue.maxsize (_audio_queue p);
              Queue.items :=
                lastn (Z.to_nat (Queue.maxsize (_audio_queue p)))
                  (Queue.items (_audio_queue p) ++ [a]) |}
           p).
Proof.
  intros Hb. unfold producer_body.
  destruct (_running p); cbn [negb fst]; [| now left].
  destruct (_capture p); [| now left].
  destruct audio as [a |]; [| now left].
  destruct (length a =? 0)%nat eqn:El; [now left |].
  destruct (rms_below a silence_threshold) eqn:Er; [now left |].
  right. exists a. split; [reflexivity |]. split.
  - split; [now apply Nat.eqb_neq | exact Er].
  - rewrite enqueue_audio_within by exact Hb.
    destruct p as [sd di aq tq rn th cp wh ol st]; destruct st; reflexivity.
Qed.

(** An iteration of the recognition worker finds the audio queue empty, or
    takes its head; then it either stops short (no engine, or the engine
    raises) or counts the chunk and queues its segments. *)
Lemma whisper_effect
  (model : WhisperEngine.ModelCall -> WhisperEngine.ModelAnswer) (p : t) :
  within_bound (_transcript_queue p) ->
  fst (whisper_body model p) = p \/
  exists audio rest,
    Queue.items (_audio_queue p) = audio :: rest /\
    let q := {| Queue.maxsize := Queue.maxsize (_audio_queue p);
                Queue.items := rest |} in
    (fst (whisper_body model p) = set_audio_queue q p \/
     exists segments,
       Forall nonblank segments /\
       fst (whisper_body model p)
       = set_transcript_queue
           {| Queue.maxsize := Queue.maxsize (_transcript_queue p);
              Queue.items :=
                lastn (Z.to_nat (Queue.maxsize (_transcript_queue p)))
                  (Queue.items (_transcript_queue p) ++ segments) |}
           (set_stats (count_transcribed segments (_stats p))
              (set_audio_queue q p))).
Proof.
  intros Hb. unfold whisper_body, Queue.get, Queue.get_nowait.
  destruct (Queue.items (_audio_queue p)) as [| audio rest]; [now left |].
  right. exists audio, rest. split; [reflexivity |]. cbn zeta.
  cbn [_whisper set_audio_queue].
  destruct (_whisper p) as [whisper |]; [| now left].
  destruct (fst (WhisperEngine.transcribe _ _ _ _ _ _)) as [segments | e] eqn:Etr;
    [| now left].
  right. exists segments. split; [now apply transcribe_nonblank in Etr |].
  now rewrite enqueue_segments_within by exact Hb.
Qed.

(** An iteration of the translation worker finds the transcript queue empty,
    or takes its head; then it either stops short (no engine) or counts the
    segment. *)
Lemma ollama_effect (U : Unicode) (tick : Tick) (p : t) :
  fst (fst (ollama_body tick p)) = p \/
  exists seg rest,
    Queue.items (_transcript_queue p) = seg :: rest /\
    let q := {| Queue.maxsize := Queue.maxsize (_transcript_queue p);
                Queue.items := rest |} in
    (fst (fst (ollama_body tick p)) = set_transcript_queue q p \/
     exists result,
       fst (fst (ollama_body tick p))
       = set_stats (count_translated result (_stats p)) (set_transcript_queue q p)).
Proof.
  unfold ollama_body, Queue.get, Queue.get_nowait.
  destruct (Queue.items (_transcript_queue p)) as [| seg rest]; [now left |].
  right. exists seg, rest. split; [reflexivity |]. cbn zeta.
  cbn [_ollama set_transcript_queue].
  destruct (_ollama p) as [ollama |]; [| now left].
  right. eexists. reflexivity.
Qed.

(** ** Invariants of the running pipeline *)

(** X1. In every state of the pipeline both queues still have the bound 20
    that [__init__] gave them and hold at most 20 items: the backlog is
    bounded whatever the speeds of the three workers. *)
Theorem queues_stay_bounded :
  forall (U : Unicode) (p : t),
    reachable p ->
    Queue.maxsize (_audio_queue p) = 20 /\
    Queue.maxsize (_transcript_queue p) = 20 /\
    Queue.qsize (_audio_queue p) <= 20 /\
    Queue.qsize (_transcript_queue p) <= 20.
Proof.
  intros U p Hr.
  assert (Hm : Queue.maxsize (_audio_queue p) = 20 /\
               Queue.maxsize (_transcript_queue p) = 20).
  { induction Hr as [sd di | p p' Hr IH Hstep]; [split; reflexivity |].
    destruct (reachable_well_formed U p Hr) as [Ha Ht _ _ _ _ _].
    destruct IH as [IHa IHt]. destruct Hstep.
    - destruct (start_frame U w p) as (-> & -> & _). now split.
    - destruct (stop_frame p) as (_ & -> & -> & _). now split.
    - destruct (producer_effect audio p Ha) as [-> | (a & _ & _ & ->)];
        now split.
    - destruct (whisper_effect model p Ht)
        as [-> | (audio & rest & _ & [-> | (segs & _ & ->)])]; now split.
    - destruct (ollama_effect U tick p)
        as [-> | (seg & rest & _ & [-> | (result & ->)])]; now split. }
  destruct (reachable_well_formed U p Hr) as [[_ Ha] [_ Ht] _ _ _ _ _].
  destruct Hm as [Hma Hmt]. rewrite Hma in Ha. rewrite Hmt in Ht.
  repeat split; assumption.
Qed.

Lemma queues_stay_bounded_witness :
  @reachable ascii_lower listening /\
  Queue.maxsize (_transcript_queue listening) = 20 /\
  Queue.qsize (_transcript_queue listening) <= 20.
Proof.
  split; [exact listening_reachable |].
  destruct (queues_stay_bounded ascii_lower listening listening_reachable)
    as (_ & Hm & _ & Hq).
  split; [exact Hm | exact Hq].
Defined.

(** X2. In every state of the pipeline the counters are not negative, and
    the chunks transcribed, the chunks dropped and the chunks waiting in the
    audio queue together never exceed the chunks captured. *)
Theorem captured_chunks_accounted :
  forall (U : Unicode) (p : t),
    reachable p ->
    0 <= chunks_transcribed (_stats p) /\
    0 <= chunks_translated (_stats p) /\
    0 <= chunks_dropped (_stats p) /\
    chunks_transcribed (_stats p) + chunks_dropped (_stats p)
    + Queue.qsize (_audio_queue p)
    <= chunks_captured (_stats p).
Proof.
  intros U p Hr.
  induction Hr as [sd di | p p' Hr IH Hstep].
  - cbn. unfold Queue.qsize. cbn. lia.
  - destruct (reachable_well_formed U p Hr) as [Ha Ht _ _ _ _ _].
    destruct IH as (Htr & Htl & Hd & Hacc). destruct Hstep.
    + destruct (start_frame U w p) as (-> & _ & -> & _). repeat split; assumption.
    + destruct (stop_frame p) as (-> & _ & _ & Hempty).
      repeat split; try assumption.
      unfold stop. destruct (_running p) eqn:Er; cbn [negb fst]; [| exact Hacc].
      rewrite !drain_queue_empty. cbn [_capture set_running].
      assert (0 <= Queue.qsize (_audio_queue p)) by (unfold Queue.qsize; lia).
      destruct (_capture p); cbn; unfold Queue.qsize; cbn; lia.
    + destruct (producer_effect audio p Ha) as [-> | (a & _ & _ & ->)];
        [repeat split; assumption |].
      destruct Ha as [Hpos Hle].
      cbn [_stats _audio_queue set_stats set_audio_queue chunks_captured
           chunks_transcribed chunks_translated chunks_dropped].
      unfold Queue.qsize in *. cbn [Queue.items].
      rewrite lastn_length, length_app. cbn [length].
      destruct (Z.eqb_spec (Z.of_nat (length (Queue.items (_audio_queue p))))
                  (Queue.maxsize (_audio_queue p))); repeat split; lia.
    + destruct (whisper_effect model p Ht)
        as [-> | (audio & rest & Hi & [-> | (segs & _ & ->)])];
        [repeat split; assumption | |];
        unfold Queue.qsize in *; rewrite Hi in Hacc; cbn [length] in Hacc;
        cbn; repeat split; lia.
    + destruct (ollama_effect U tick p)
        as [-> | (seg & rest & _ & [-> | (result & ->)])];
        [repeat split; assumption | |]; cbn; repeat split; lia.
Qed.

Lemma captured_chunks_accounted_witness :
  @reachable ascii_lower listening /\
  chunks_transcribed (_stats listening) + chunks_dropped (_stats listening)
  + Queue.qsize (_audio_queue listening)
  <= chunks_captured (_stats listening).
Proof.
  split; [exact listening_reachable |].
  exact (proj2 (proj2 (proj2
           (captured_chunks_accounted ascii_lower listening listening_reachable)))).
Defined.



(** ** Lifecycle: what [start] and [stop] do when there is something to do *)

Lemma capture_stop_not_capturing (c : AudioCapture.t) :
  AudioCapture._is_capturing (AudioCapture.stop c) = false.
Proof.
  unfold AudioCapture.stop.
  destruct (AudioCapture._is_capturing c) eqn:Ec; cbn [negb]; [reflexivity | exact Ec].
Qed.




(** How a fresh capture object starts: normally only by capturing. *)
Lemma capture_start_normal (h : AudioCapture.Host) (device_index : option Z)
  (c c' : AudioCapture.t) :
  AudioCapture._is_capturing c = false ->
  AudioCapture.start h device_index c = (c', Normal) ->
  AudioCapture._is_capturing c' = true /\
  AudioCapture._stream c' = true /\
  AudioCapture._audio_buffer c' = [].
Proof.
  intros Hc. unfold AudioCapture.start. rewrite Hc.
  destruct (AudioCapture.resolve_device _ _) as [device | e]; [| discriminate].
  destruct (AudioCapture.pa_open h) as [[] | e]; [| discriminate].
  destruct (AudioCapture.start_stream h) as [[] | e]; [| discriminate].
  intros [= <-]. repeat split.
Qed.

(** X5. When the recognition engine loads and the capture object starts,
    [start] on a pipeline that is not running leaves it running with the
    three workers, with both engines constructed with the defaults of the
    source and with a capture object that is capturing into an empty
    buffer. *)
Theorem started_pipeline_is_equipped :
  forall (U : Unicode) (w : StartupWorld) (p : t),
    _running p = false ->
    whisper_load w = Return tt ->
    capture_startup (audio_host w) (_device_index p) = Normal ->
    let p' := fst (start w p) in
    snd (start w p) = Normal /\
    _running p' = true /\
    _threads p' = worker_names /\
    _whisper p' = Some base_whisper /\
    _ollama p' = Some qwen /\
    exists c, _capture p' = Some c /\
              AudioCapture._is_capturing c = true /\
              AudioCapture._audio_buffer c = [] /\
              AudioCapture._target_sample_rate c = 16000.
Proof.
  intros U w p Hr Hload Hcap. cbn zeta.
  unfold start, capture_startup in *. rewrite Hr, Hload.
  cbn [WhisperEngine.init bind OllamaEngine.init].
  cbn [set_ollama set_whisper _device_index] in *.
  destruct (AudioCapture.init (audio_host w) (_device_index p) 16000)
    as [capture | e] eqn:Ei; [| discriminate].
  assert (Hfresh : AudioCapture._is_capturing capture = false /\
                   AudioCapture._target_sample_rate capture = 16000).
  { unfold AudioCapture.init in Ei.
    destruct (AudioCapture.pa_init (audio_host w)); [| discriminate].
    cbn [bind] in Ei. injection Ei as <-. split; reflexivity. }
  destruct Hfresh as [Hfresh Hrate].
  destruct (AudioCapture.start (audio_host w) None capture) as [c o] eqn:Es.
  cbn [snd] in Hcap. subst o.
  destruct (capture_start_normal _ _ _ _ Hfresh Es) as (Hc & _ & Hb).
  cbn. repeat split. exists c. repeat split; try assumption.
  unfold AudioCapture.start in Es. rewrite Hfresh in Es.
  destruct (AudioCapture.resolve_device _ _); [| discriminate].
  destruct (AudioCapture.pa_open _); [| discriminate].
  destruct (AudioCapture.start_stream _); [| discriminate].
  injection Es as <-. exact Hrate.
Qed.

Lemma started_pipeline_is_equipped_witness :
  _running (init 4 None) = false /\
  whisper_load world_up = Return tt /\
  capture_startup (audio_host world_up) (_device_index (init 4 None)) = Normal /\
  _running started = true /\
  _ollama started = Some qwen.
Proof.
  split; [reflexivity |]. split; [reflexivity |]. split; [reflexivity |].
  destruct (started_pipeline_is_equipped ascii_lower world_up (init 4 None)
              eq_refl eq_refl eq_refl) as (_ & Hr & _ & _ & Ho & _).
  split; [exact Hr | exact Ho].
Defined.

(** X6. A pipeline that was stopped can be started again, and its
    statistics carry over: after [stop] and then [start] in a world where
    the recognition engine loads and the capture starts, the pipeline is
    running with the counters it had before [stop]; neither call resets
    them. *)
Theorem restart_keeps_statistics :
  forall (U : Unicode) (w : StartupWorld) (p : t),
    whisper_load w = Return tt ->
    capture_startup (audio_host w) (_device_index p) = Normal ->
    let stopped := fst (fst (stop p)) in
    snd (start w stopped) = Normal /\
    _running (fst (start w stopped)) = true /\
    _threads (fst (start w stopped)) = worker_names /\
    _stats (fst (start w stopped)) = _stats p.
Proof.
  intros U w p Hload Hcap stopped.
  assert (Hr : _running stopped = false).
  { subst stopped. unfold stop. destruct (_running p) eqn:Er; cbn [negb fst].
    - cbn [_capture set_running]. destruct (_capture p); reflexivity.
    - exact Er. }
  assert (Hd : _device_index stopped = _device_index p).
  { subst stopped. unfold stop. destruct (_running p); cbn [negb fst].
    - cbn [_capture set_running]. destruct (_capture p); reflexivity.
    - reflexivity. }
  assert (Hs : _stats stopped = _stats p) by (subst stopped; apply stop_frame).
  rewrite <- Hd in Hcap.
  destruct (start_frame U w stopped) as (_ & _ & Hst & _).
  rewrite Hst, Hs.
  unfold start, capture_startup in *. rewrite Hr, Hload.
  cbn [WhisperEngine.init bind OllamaEngine.init].
  cbn [set_ollama set_whisper _device_index] in *.
  destruct (AudioCapture.init (audio_host w) (_device_index stopped) 16000)
    as [capture | e]; [| discriminate].
  destruct (AudioCapture.start (audio_host w) None capture) as [c o].
  cbn [snd] in Hcap. subst o. repeat split.
Qed.

Lemma restart_keeps_statistics_witness :
  whisper_load world_up = Return tt /\
  capture_startup (audio_host world_up) (_device_index listening) = Normal /\
  _running (fst (@start ascii_lower world_up (fst (fst (stop listening))))) = true /\
  chunks_captured
    (_stats (fst (@start ascii_lower world_up (fst (fst (stop listening)))))) = 1.
Proof.
  split; [reflexivity |]. split; [reflexivity |].
  destruct (restart_keeps_statistics ascii_lower world_up listening
              eq_refl eq_refl) as (_ & Hr & _ & Hs).
  split; [exact Hr |]. cbn zeta in Hs. rewrite Hs. reflexivity.
Defined.

(** ** The three loops *)




Lemma transcribe_answers (w : WhisperEngine.t)
  (model : WhisperEngine.ModelCall -> WhisperEngine.ModelAnswer)
  (audio : option (list Q)) (language : option str) (ms mx : Z) :
  answers model ->
  exists segments,
    fst (WhisperEngine.transcribe w model audio language ms mx) = Return segments.
Proof.
  intros Hm. unfold WhisperEngine.transcribe.
  destruct audio as [a |]; [| now exists []].
  destruct (length a =? 0)%nat; [now exists [] |].
  destruct (rms_below _ _); [now exists [] |].
  match goal with |- context [model ?c] => destruct (Hm c) as (segs & info & ->) end.
  eexists. reflexivity.
Qed.

Lemma whisper_body_frame
  (model : WhisperEngine.ModelCall -> WhisperEngine.ModelAnswer) (p : t) :
  within_bound (_transcript_queue p) ->
  _running (fst (whisper_body model p)) = _running p /\
  _whisper (fst (whisper_body model p)) = _whisper p.
Proof.
  intros Hb.
  destruct (whisper_effect model p Hb)
    as [-> | (a & r & _ & [-> | (s & _ & ->)])]; split; reflexivity.
Qed.

(** X8. The loop of the recognition worker on a running, well-formed
    pipeline, with models that answer and no more iterations than chunks
    waiting: it never raises; it takes the chunks from the head of the audio
    queue, one per iteration; it counts each of them as transcribed, whether
    speech was found in it or not; the segments reach the transcript queue
    in the order of their chunks, behind the segments already waiting; and
    the drop counter does not move. *)
Theorem recognition_worker_takes_each_chunk :
  forall (models : list (WhisperEngine.ModelCall -> WhisperEngine.ModelAnswer))
         (p : t) (w : WhisperEngine.t),
    well_formed p ->
    _running p = true ->
    _whisper p = Some w ->
    Forall answers models ->
    (length models <= length (Queue.items (_audio_queue p)))%nat ->
    let r := _whisper_worker models p in
    snd r = Normal /\
    Queue.items (_audio_queue (fst r))
    = skipn (length models) (Queue.items (_audio_queue p)) /\
    chunks_transcribed (_stats (fst r))
    = chunks_transcribed (_stats p) + Z.of_nat (length models) /\
    Queue.items (_transcript_queue (fst r))
    = lastn (Z.to_nat (Queue.maxsize (_transcript_queue p)))
        (Queue.items (_transcript_queue p)
         ++ recognised w models (Queue.items (_audio_queue p))) /\
    chunks_dropped (_stats (fst r)) = chunks_dropped (_stats p).
Proof.
  induction models as [| model rest IH]; intros p w Hwf Hrun Hw Hall Hlen;
    cbn zeta.
  - cbn [_whisper_worker fst snd length skipn recognised].
    rewrite app_nil_r. destruct Hwf as [_ [_ Ht] _ _ _ _ _].
    rewrite lastn_all by (unfold Queue.qsize in Ht; lia).
    repeat split; lia.
  - apply Forall_cons_iff in Hall as [Hm Hall].
    destruct (Queue.items (_audio_queue p)) as [| audio audios] eqn:Ei;
      [cbn [length] in Hlen; lia |].
    cbn [_whisper_worker]. rewrite Hrun.
    pose proof (whisper_well_formed model p Hwf) as Hwf'.
    pose proof (whisper_body_frame model p (wf_transcript p Hwf)) as [Hrun' Hw'].
    destruct (transcribe_answers w model (Some audio) None 250 15 Hm)
      as [segments Htr].
    cbn [recognised]. rewrite Htr.
    unfold whisper_body, Queue.get, Queue.get_nowait in *. rewrite Ei in *.
    cbn [_whisper set_audio_queue] in *. rewrite Hw, Htr in *.
    rewrite enqueue_segments_within in * by exact (wf_transcript p Hwf).
    cbn [fst] in Hwf', Hrun', Hw'.
    rewrite Hrun in Hrun'.
    specialize (IH _ w Hwf' Hrun' Hw' Hall).
    cbn [length] in Hlen.
    cbn [_audio_queue _transcript_queue _stats set_stats set_audio_queue
         set_transcript_queue count_transcribed Queue.items Queue.maxsize
         chunks_transcribed chunks_dropped fst] in IH |- *.
    specialize (IH ltac:(lia)). cbn zeta in IH.
    destruct IH as (Hn & Ha & Hc & Ht & Hd).
    rewrite Hn, Ha, Hc, Ht, Hd. rewrite lastn_app, <- app_assoc.
    cbn [length skipn]. repeat split; try reflexivity. lia.
Qed.

(** Two chunks of speech wait in the audio queue of a started pipeline. *)
Lemma two_chunks_reachable :
  @reachable ascii_lower
    (fst (producer_body (Some loud) (fst (producer_body (Some loud) started)))).
Proof.
  unfold started.
  repeat (eapply reachable_step; [| constructor]). apply reachable_init.
Qed.

Lemma recognition_worker_takes_each_chunk_witness :
  let p := fst (producer_body (Some loud) (fst (producer_body (Some loud) started))) in
  let r := _whisper_worker [model_hears; model_hears] p in
  _running p = true /\
  Forall answers [model_hears; model_hears] /\
  Queue.items (_audio_queue (fst r)) = [] /\
  chunks_transcribed (_stats (fst r)) = 2 /\
  Queue.items (_transcript_queue (fst r)) = [hello; hello].
Proof.
  intros p r.
  assert (Hm : Forall answers [model_hears; model_hears]).
  { repeat constructor; intros call; do 2 eexists; reflexivity. }
  split; [reflexivity |]. split; [exact Hm |].
  destruct (recognition_worker_takes_each_chunk [model_hears; model_hears] p
              base_whisper
              (reachable_well_formed ascii_lower p two_chunks_reachable)
              eq_refl eq_refl Hm)
    as (_ & Ha & Hc & Ht & _).
  - cbn. lia.
  - split; [exact Ha |]. split; [exact Hc | exact Ht].
Defined.

(** X9. The loop of the translation worker on a running, well-formed
    pipeline, with no more iterations than segments waiting: whatever the
    translation service answers it never raises; it takes the segments from
    the head of the transcript queue, hands the sink one item for each, in
    their order, and counts each as translated. *)
Theorem translation_worker_takes_each_segment :
  forall (U : Unicode) (ticks : list Tick) (p : t),
    well_formed p ->
    _running p = true ->
    (length ticks <= length (Queue.items (_transcript_queue p)))%nat ->
    let r := _ollama_worker ticks p in
    snd (fst r) = Normal /\
    map transcript (snd r)
    = firstn (length ticks) (Queue.items (_transcript_queue p)) /\
    Queue.items (_transcript_queue (fst (fst r)))
    = skipn (length ticks) (Queue.items (_transcript_queue p)) /\
    chunks_translated (_stats (fst (fst r)))
    = chunks_translated (_stats p) + Z.of_nat (length ticks) /\
    _audio_queue (fst (fst r)) = _audio_queue p.
Proof.
  intros U ticks.
  induction ticks as [| tick rest IH]; intros p Hwf Hrun Hlen; cbn zeta.
  - cbn [_ollama_worker fst snd length map firstn skipn]. repeat split. lia.
  - cbn [_ollama_worker]. rewrite Hrun.
    destruct (Queue.items (_transcript_queue p)) as [| seg segs] eqn:Ei;
      [cbn [length] in Hlen; lia |].
    assert (Hget : Queue.get 1 (_transcript_queue p)
                   = Return (seg, {| Queue.maxsize := Queue.maxsize (_transcript_queue p);
                                     Queue.items := segs |}))
      by (unfold Queue.get, Queue.get_nowait; now rewrite Ei).
    destruct (transcript_head_ready p seg _ Hwf Hget) as (_ & ollama & Ho).
    pose proof (ollama_well_formed U tick p Hwf) as Hwf'.
    pose proof (ollama_body_running U tick p) as Hrun'.
    unfold ollama_body in *. rewrite Hget in *.
    cbn [_ollama set_transcript_queue] in *. rewrite Ho in *.
    cbn [fst] in Hwf', Hrun'. rewrite Hrun in Hrun'.
    specialize (IH _ Hwf' Hrun').
    cbn [length] in Hlen.
    cbn [_audio_queue _transcript_queue _stats set_stats set_transcript_queue
         count_translated Queue.items chunks_translated] in IH.
    specialize (IH ltac:(lia)). cbn zeta in IH.
    destruct (_ollama_worker rest _) as [[p'' c] out].
    cbn [fst snd] in *. destruct IH as (Hc & Hm & Hi & Hn & Ha).
    rewrite Hi, Hn, Ha.
    cbn [app map length firstn skipn]. rewrite Hm.
    repeat split; try assumption; try reflexivity. lia.
Qed.

Lemma translation_worker_takes_each_segment_witness :
  let r := @_ollama_worker ascii_lower
             [{| chat := service_down; now := 7 |}] listening in
  _running listening = true /\
  snd (fst r) = Normal /\
  map transcript (snd r) = [hello] /\
  chunks_translated (_stats (fst (fst r))) = 1.
Proof.
  intros r. split; [reflexivity |].
  destruct (translation_worker_takes_each_segment ascii_lower
              [{| chat := service_down; now := 7 |}] listening
              (reachable_well_formed ascii_lower listening listening_reachable)
              eq_refl)
    as (Hc & Hm & _ & Hn & _).
  - cbn. lia.
  - split; [exact Hc |]. split; [exact Hm | exact Hn].
Defined.

(** * Further properties of the recognition engine *)









Lemma firstn_whole {A : Type} (n : nat) (l : list A) :
  (length l <= n)%nat -> firstn n l = l.
Proof. intros H. now apply firstn_all2. Qed.

(** X12. [detect_language] answers ("unknown", 0) without calling the model
    when there is no audio; otherwise it calls the model exactly once, with
    beam size 1 and the first 480000 samples of the audio at most, and it
    returns the language of the answer whether or not the generator of the
    model would have failed; only an exception at the call is raised. *)
Theorem detect_language_passes_30_seconds :
  forall (w : WhisperEngine.t)
         (model : WhisperEngine.DetectCall -> WhisperEngine.ModelAnswer)
         (audio : option (list Q)),
    match audio with
    | None => WhisperEngine.detect_language w model audio
              = (Return (lit "unknown", 0%Q), [])
    | Some a =>
        if (length a =? 0)%nat
        then WhisperEngine.detect_language w model audio
             = (Return (lit "unknown", 0%Q), [])
        else
          let call := {| WhisperEngine.detect_audio := firstn (Z.to_nat 480000) a;
                         WhisperEngine.detect_beam_size := 1 |} in
          Z.of_nat (length (WhisperEngine.detect_audio call)) <= 480000 /\
          snd (WhisperEngine.detect_language w model audio) = [call] /\
          match model call with
          | WhisperEngine.ModelRaises e =>
              fst (WhisperEngine.detect_language w model audio) = Raise e
          | WhisperEngine.ModelYields _ _ info =>
              fst (WhisperEngine.detect_language w model audio)
              = Return (WhisperEngine.info_language info,
                        WhisperEngine.language_probability info)
          end
    end.
Proof.
  intros w model audio. destruct audio as [a |]; [| reflexivity].
  unfold WhisperEngine.detect_language.
  destruct (length a =? 0)%nat; [reflexivity |]. cbn zeta.
  change (30 * 16000) with 480000.
  assert (Ha : (if 480000 <? Z.of_nat (length a)
                then firstn (Z.to_nat 480000) a else a)
               = firstn (Z.to_nat 480000) a).
  { destruct (480000 <? Z.of_nat (length a)) eqn:E; [reflexivity |].
    apply Z.ltb_ge in E. symmetry. apply firstn_whole. lia. }
  rewrite Ha. cbn [WhisperEngine.detect_audio]. split.
  - pose proof (firstn_le_length (Z.to_nat 480000) a). lia.
  - destruct (model _) as [e | segs fin info]; split; reflexivity.
Qed.


(** * Further properties of the translation engine *)

Lemma lstrip_length (s : str) : (length (lstrip s) <= length s)%nat.
Proof.
  induction s as [| c r IH]; cbn [lstrip length]; [lia |].
  destruct (isspace c); cbn [length]; lia.
Qed.

Lemma strip_length (s : str) : (length (strip s) <= length s)%nat.
Proof.
  unfold strip, rstrip. rewrite length_rev.
  pose proof (lstrip_length (rev (lstrip s))) as H1.
  rewrite length_rev in H1. pose proof (lstrip_length s). lia.
Qed.

Lemma unquote_length (quote : N) (s : str) :
  (length (OllamaEngine.unquote quote s) <= length s)%nat.
Proof.
  unfold OllamaEngine.unquote, slice_1_m1.
  destruct (startswith s [quote] && endswith s [quote]); [| lia].
  destruct s as [| c r]; cbn [tl length]; [cbn; lia |].
  destruct r as [| d r']; [cbn; lia |].
  rewrite removelast_firstn_len, length_firstn. lia.
Qed.

(** X13. [_clean_output] returns a text with no whitespace at either end
    (stripping it again changes nothing) and never a longer one than it was
    given, whatever the case mapping. *)
Theorem clean_output_stripped_and_no_longer :
  forall (U : Unicode) (text : str),
    strip (OllamaEngine._clean_output text) = OllamaEngine._clean_output text /\
    (length (OllamaEngine._clean_output text) <= length text)%nat.
Proof.
  intros U text. unfold OllamaEngine._clean_output. split.
  - apply strip_idempotent.
  - eapply Nat.le_trans; [apply strip_length |].
    assert (Hfold : forall ps t,
              (length (fold_left
                         (fun t p =>
                            if startswith (str_lower t) (str_lower p)
                            then strip (slice_from (length p) t) else t)
                         ps t) <= length t)%nat).
    { induction ps as [| p ps IH]; intros t; cbn [fold_left]; [lia |].
      eapply Nat.le_trans; [apply IH |].
      destruct (startswith _ _); [| lia].
      eapply Nat.le_trans; [apply strip_length |].
      unfold slice_from. rewrite length_skipn. lia. }
    eapply Nat.le_trans; [apply Hfold |].
    eapply Nat.le_trans; [apply unquote_length |]. apply unquote_length.
Qed.

Lemma startswith_prefix (s p : str) :
  startswith s p = true <-> exists post, s = p ++ post.
Proof.
  revert s. induction p as [| c p IH]; intros s.
  - split; [intros _; now exists s | intros _; now destruct s].
  - destruct s as [| d s]; cbn [startswith];
      [split; [discriminate | intros [post H]; discriminate H] |].
    rewrite andb_true_iff, N.eqb_eq, IH. split.
    + intros [-> [post ->]]. now exists post.
    + intros [post [= -> ->]]. split; [reflexivity | now exists post].
Qed.

Lemma contains_occurs (b a : str) :
  OllamaEngine.contains b a = true <-> occurs_in a b.
Proof.
  unfold occurs_in. induction b as [| c b IH]; cbn [OllamaEngine.contains].
  - rewrite orb_false_r, startswith_prefix. split.
    + intros [post H]. now exists [], post.
    + intros (pre & post & H). symmetry in H.
      apply app_eq_nil in H as [-> H]. apply app_eq_nil in H as [-> ->].
      now exists [].
  - rewrite orb_true_iff, startswith_prefix, IH. split.
    + intros [[post H] | (pre & post & ->)].
      * now exists [], post.
      * now exists (c :: pre), post.
    + intros (pre & post & H). destruct pre as [| d pre].
      * left. now exists post.
      * right. injection H as -> ->. now exists pre, post.
Qed.

(** X14. The connection check reports the service as connected exactly when
    the answer to [GET /api/tags] has status 200 and lists a model whose
    name occurs in the configured name or in which the configured name
    occurs; whatever else the request does - a refusal, another status, a
    malformed body - is a printed report and never an exception. *)
Theorem verify_connection_connected :
  forall (e : OllamaEngine.t) (tags : OllamaEngine.TagsAnswer),
    OllamaEngine._verify_connection e tags = OllamaEngine.Connected <->
    exists names name,
      tags = OllamaEngine.TagsStatus 200 names /\
      In name names /\
      (occurs_in (OllamaEngine._model e) name \/
       occurs_in name (OllamaEngine._model e)).
Proof.
  intros e tags. unfold OllamaEngine._verify_connection. split.
  - destruct tags as [[] | code names]; try discriminate.
    destruct (code =? 200) eqn:Ec; cbn [negb]; [| discriminate].
    apply Z.eqb_eq in Ec. subst code.
    destruct (existsb _ names) eqn:Ex; [| discriminate]. intros _.
    apply existsb_exists in Ex as (name & Hin & Hm).
    exists names, name. split; [reflexivity |]. split; [exact Hin |].
    apply orb_true_iff in Hm as [Hm | Hm]; apply contains_occurs in Hm; auto.
  - intros (names & name & -> & Hin & Hocc).
    cbn [Z.eqb Pos.eqb negb].
    assert (Ex : existsb
                   (fun name => OllamaEngine.contains name (OllamaEngine._model e)
                                || OllamaEngine.contains (OllamaEngine._model e) name)
                   names = true).
    { apply existsb_exists. exists name. split; [exact Hin |].
      apply orb_true_iff.
      destruct Hocc as [H | H]; apply contains_occurs in H; auto. }
    now rewrite Ex.
Qed.

Lemma verify_connection_connected_witness :
  OllamaEngine._verify_connection qwen
    (OllamaEngine.TagsStatus 200 [lit "llama3"; lit "qwen2.5:7b-instruct-q4_K_M-fp16"])
  = OllamaEngine.Connected.
Proof.
  apply (proj2 (verify_connection_connected qwen _)).
  exists [lit "llama3"; lit "qwen2.5:7b-instruct-q4_K_M-fp16"],
         (lit "qwen2.5:7b-instruct-q4_K_M-fp16").
  split; [reflexivity |]. split; [right; left; reflexivity |].
  left. exists [], (lit "-fp16"). reflexivity.
Defined.

Lemma strip_empty_iff (s : str) : strip s = [] <-> forallb isspace s = true.
Proof.
  split; [| apply strip_blank].
  unfold strip, rstrip. intros H.
  apply (f_equal (@rev N)) in H. rewrite rev_involutive in H. cbn [rev] in H.
  pose proof (lstrip_head (rev (lstrip s))) as Hr. rewrite H in Hr.
  rewrite forallb_rev in Hr.
  pose proof (lstrip_head s) as Hl.
  destruct (lstrip s) as [| c r]; [exact Hl |].
  cbn [forallb] in Hr. rewrite Hl in Hr. discriminate.
Qed.

(** X15. [translate] posts no request when the text is blank or the source
    language is not one of the two, and exactly one request otherwise,
    whether the exchange succeeds or not (a failure is not retried); the
    request carries the model of the engine, the prompt of the direction
    and the stripped text, which is never empty. *)
Theorem translate_posts_at_most_one_request :
  forall (U : Unicode) (e : OllamaEngine.t) (ex : OllamaEngine.ChatExchange)
         (text source_language : str),
    let sent := snd (OllamaEngine.translate e ex text source_language) in
    (sent = [] <->
     forallb isspace text = true \/ OllamaEngine.direction source_language = None) /\
    (forall payload, In payload sent ->
       sent = [payload] /\
       OllamaEngine.payload_model payload = OllamaEngine._model e /\
       OllamaEngine.payload_user payload = strip text /\
       OllamaEngine.payload_user payload <> [] /\
       exists target,
         OllamaEngine.direction source_language
         = Some (OllamaEngine.payload_system payload, target)).
Proof.
  intros U e ex text lang. cbn zeta. unfold OllamaEngine.translate.
  destruct (truthy (strip text)) eqn:Es.
  - assert (Ht : truthy text = true).
    { destruct text; [discriminate Es | reflexivity]. }
    assert (Hnb : forallb isspace text <> true).
    { intros H. apply strip_empty_iff in H. now rewrite H in Es. }
    assert (Hne : strip text <> []) by (now apply truthy_nonempty).
    rewrite Ht. cbn [negb orb].
    destruct (OllamaEngine.direction lang) as [[prompt target] |] eqn:Ed.
    + assert (Hs : snd (match OllamaEngine.answer ex
                                (OllamaEngine.make_payload e prompt (strip text)) with
                        | OllamaEngine.HttpRaises _ =>
                            (None, [OllamaEngine.make_payload e prompt (strip text)])
                        | OllamaEngine.HttpContent content =>
                            (Some {| OllamaEngine.source_text := strip text;
                                     OllamaEngine.translated_text :=
                                       OllamaEngine._clean_output (strip content);
                                     OllamaEngine.source_language := lang;
                                     OllamaEngine.target_language := target;
                                     OllamaEngine.translation_time :=
                                       OllamaEngine.elapsed ex;
                                     OllamaEngine.model := OllamaEngine._model e |},
                             [OllamaEngine.make_payload e prompt (strip text)])
                        end)
                   = [OllamaEngine.make_payload e prompt (strip text)])
        by (destruct (OllamaEngine.answer ex _); reflexivity).
      rewrite Hs. split.
      * split; [discriminate | intros [H | H]; [now elim Hnb | discriminate H]].
      * intros payload [<- | []]. cbn.
        repeat split; try assumption. now exists target.
    + cbn [snd]. split; [split; auto | easy].
  - rewrite orb_true_r. cbn [snd]. split; [| easy].
    split; [intros _; left | reflexivity].
    apply strip_empty_iff. destruct (strip text); [reflexivity | discriminate Es].
Qed.

Lemma translate_posts_at_most_one_request_witness :
  snd (@OllamaEngine.translate ascii_lower qwen service_down (lit " da ") (lit "ru"))
  = [OllamaEngine.make_payload qwen OllamaEngine.PromptRuToEn (lit "da")] /\
  snd (@OllamaEngine.translate ascii_lower qwen service_down (lit " da ") (lit "fr"))
  = [].
Proof.
  split; [reflexivity |].
  apply (proj1 (translate_posts_at_most_one_request ascii_lower qwen service_down
                  (lit " da ") (lit "fr"))).
  right. reflexivity.
Defined.

(** X16. [warm_up] posts exactly one request, the greeting with the
    Russian-to-English prompt, whatever the state of the service, and it
    reports success exactly when the exchange gave a content; it raises
    nothing. *)
Theorem warm_up_posts_one_request :
  forall (U : Unicode) (e : OllamaEngine.t) (ex : OllamaEngine.ChatExchange),
    let payload :=
      OllamaEngine.make_payload e OllamaEngine.PromptRuToEn OllamaEngine.warm_up_text in
    snd (OllamaEngine.warm_up e ex) = [payload] /\
    (fst (OllamaEngine.warm_up e ex) = true <->
     exists content, OllamaEngine.answer ex payload = OllamaEngine.HttpContent content).
Proof.
  intros U e ex. cbn zeta. unfold OllamaEngine.warm_up, OllamaEngine.translate.
  change (strip OllamaEngine.warm_up_text) with OllamaEngine.warm_up_text.
  change (OllamaEngine.direction (lit "ru"))
    with (Some (OllamaEngine.PromptRuToEn, lit "en")).
  cbn [truthy OllamaEngine.warm_up_text negb orb].
  destruct (OllamaEngine.answer ex _) as [err | content]; cbn [fst snd].
  - split; [reflexivity |]. split; [discriminate | intros [c H]; discriminate H].
  - split; [reflexivity |]. split; [intros _; now exists content | reflexivity].
Qed.

(** * Further properties of the audio capture *)

(** ** The buffer *)

Lemma after_callbacks_capturing (blocks : list (list Q)) :
  forall c : AudioCapture.t,
    AudioCapture._is_capturing c = true ->
    AudioCapture._audio_buffer (after_callbacks blocks c)
    = AudioCapture._audio_buffer c ++ blocks /\
    AudioCapture._source_channels (after_callbacks blocks c)
    = AudioCapture._source_channels c /\
    AudioCapture._source_sample_rate (after_callbacks blocks c)
    = AudioCapture._source_sample_rate c /\
    AudioCapture._target_sample_rate (after_callbacks blocks c)
    = AudioCapture._target_sample_rate c /\
    AudioCapture._is_capturing (after_callbacks blocks c) = true.
Proof.
  unfold after_callbacks.
  induction blocks as [| b rest IH]; intros c Hc; cbn [fold_left].
  - rewrite app_nil_r. repeat split. exact Hc.
  - assert (Hcb : AudioCapture._is_capturing (AudioCapture._audio_callback b c) = true)
      by (unfold AudioCapture._audio_callback; now rewrite Hc).
    destruct (IH _ Hcb) as (Hb & Hch & Hr & Ht & Hcap).
    rewrite Hb, Hch, Hr, Ht, Hcap.
    unfold AudioCapture._audio_callback. rewrite Hc. cbn.
    rewrite <- app_assoc. repeat split.
Qed.

(** X17. What the host delivers while the object is capturing is handed out
    in the order it arrived and once: after any callbacks,
    [get_audio_chunk(clear=True)] works on the concatenation of what the
    buffer held and the blocks delivered (and returns exactly that when the
    source needs no conversion), it leaves the buffer empty, and the call
    after it returns [None]. *)
Theorem capture_hands_out_audio_once :
  forall (soxr : option (list Q -> Z -> Z -> result (list Q)))
         (c : AudioCapture.t) (blocks : list (list Q)),
    AudioCapture._is_capturing c = true ->
    AudioCapture._audio_buffer c ++ blocks <> [] ->
    let recorded := concat (AudioCapture._audio_buffer c ++ blocks) in
    let r := AudioCapture.get_audio_chunk soxr true (after_callbacks blocks c) in
    fst r = (do mono <- AudioCapture.to_mono c recorded;
             do resampled <- AudioCapture.resample soxr c mono;
             Return (Some resampled)) /\
    (passthrough c -> fst r = Return (Some recorded)) /\
    AudioCapture._audio_buffer (snd r) = [] /\
    AudioCapture.get_audio_chunk soxr true (snd r) = (Return None, snd r).
Proof.
  intros soxr c blocks Hc Hne. cbn zeta.
  destruct (after_callbacks_capturing blocks c Hc) as (Hb & Hch & Hr & Ht & _).
  assert (Hfst : fst (AudioCapture.get_audio_chunk soxr true (after_callbacks blocks c))
                 = (do mono <- AudioCapture.to_mono c
                                 (concat (AudioCapture._audio_buffer c ++ blocks));
                    do resampled <- AudioCapture.resample soxr c mono;
                    Return (Some resampled))).
  { unfold AudioCapture.get_audio_chunk. rewrite Hb.
    destruct (AudioCapture._audio_buffer c ++ blocks); [now elim Hne |].
    cbn [fst]. unfold AudioCapture.to_mono, AudioCapture.resample.
    now rewrite Hch, Hr, Ht. }
  split; [exact Hfst |]. split.
  - intros [Hmono Hrate]. rewrite Hfst.
    unfold AudioCapture.to_mono, AudioCapture.resample.
    assert (Em : match AudioCapture._source_channels c with
                 | Some ch =>
                     if 1 <? ch
                     then AudioCapture.reshape_mean ch
                            (concat (AudioCapture._audio_buffer c ++ blocks))
                     else Return (concat (AudioCapture._audio_buffer c ++ blocks))
                 | None => Return (concat (AudioCapture._audio_buffer c ++ blocks))
                 end
                 = Return (concat (AudioCapture._audio_buffer c ++ blocks))).
    { destruct (AudioCapture._source_channels c) as [ch |]; [| reflexivity].
      destruct (1 <? ch) eqn:E; [apply Z.ltb_lt in E; lia | reflexivity]. }
    rewrite Em. cbn [bind].
    destruct (AudioCapture._source_sample_rate c) as [rate |]; [| reflexivity].
    destruct Hrate as [-> | ->]; [reflexivity |].
    now rewrite Z.eqb_refl, orb_true_r.
  - unfold AudioCapture.get_audio_chunk. rewrite Hb.
    destruct (AudioCapture._audio_buffer c ++ blocks); [now elim Hne |].
    cbn [snd AudioCapture._audio_buffer]. split; reflexivity.
Qed.

Lemma capture_hands_out_audio_once_witness :
  let c := {| AudioCapture._pa := true; AudioCapture._stream := true;
              AudioCapture._is_capturing := true;
              AudioCapture._audio_buffer := [];
              AudioCapture._device_index := None;
              AudioCapture._target_sample_rate := 16000;
              AudioCapture._source_sample_rate := Some 16000;
              AudioCapture._source_channels := Some 1 |} in
  AudioCapture._is_capturing c = true /\
  passthrough c /\
  fst (AudioCapture.get_audio_chunk None true (after_callbacks [loud; quiet] c))
  = Return (Some (loud ++ quiet)).
Proof.
  intros c.
  assert (Hp : passthrough c) by (split; cbn; [lia | right; reflexivity]).
  split; [reflexivity |]. split; [exact Hp |].
  destruct (capture_hands_out_audio_once None c [loud; quiet] eq_refl)
    as (_ & Hpass & _); [discriminate |].
  exact (Hpass Hp).
Defined.

(** X18. Once the capture is stopped, blocks that the host still delivers
    are ignored, and what was recorded is still in the buffer: [stop] does
    not clear it. *)
Theorem stopped_capture_ignores_late_audio :
  forall (c : AudioCapture.t) (blocks : list (list Q)),
    after_callbacks blocks (AudioCapture.stop c) = AudioCapture.stop c /\
    AudioCapture._audio_buffer (after_callbacks blocks (AudioCapture.stop c))
    = AudioCapture._audio_buffer c.
Proof.
  intros c blocks.
  assert (H : after_callbacks blocks (AudioCapture.stop c) = AudioCapture.stop c).
  { unfold after_callbacks. induction blocks as [| b rest IH]; [reflexivity |].
    cbn [fold_left].
    replace (AudioCapture._audio_callback b (AudioCapture.stop c))
      with (AudioCapture.stop c); [exact IH |].
    unfold AudioCapture._audio_callback.
    now rewrite capture_stop_not_capturing. }
  split; [exact H |]. rewrite H. unfold AudioCapture.stop.
  destruct (AudioCapture._is_capturing c); reflexivity.
Qed.

(** ** The conversions *)

Lemma interleave_length (left right : list Q) :
  length left = length right ->
  length (interleave left right) = (2 * length left)%nat.
Proof.
  revert right. induction left as [| l left IH]; intros [| r right] H;
    try discriminate; [reflexivity |].
  cbn [interleave length] in *. rewrite (IH right) by lia. lia.
Qed.

Lemma rows_interleave (left right : list Q) :
  length left = length right ->
  Forall2 Qeq
    (map AudioCapture.row_mean
       (AudioCapture.rows (length left) 2 (interleave left right)))
    (map (fun lr => ((fst lr + snd lr) / 2)%Q) (combine left right)).
Proof.
  revert right. induction left as [| l left IH]; intros [| r right] H;
    try discriminate; [constructor |].
  cbn [length interleave AudioCapture.rows firstn skipn combine map].
  constructor; [| apply IH; cbn [length] in H; lia].
  unfold AudioCapture.row_mean. cbn [fold_right length fst snd].
  change (inject_Z (Z.of_nat 2)) with 2%Q. field.
Qed.

(** X19. For a stereo source the conversion to mono averages each frame:
    left and right samples in turn give the list of their means; a buffer
    with an odd number of samples cannot be split into frames and the
    conversion raises. *)
Theorem stereo_frames_are_averaged :
  forall (c : AudioCapture.t),
    AudioCapture._source_channels c = Some 2 ->
    (forall left right,
       length left = length right ->
       exists mono,
         AudioCapture.to_mono c (interleave left right) = Return mono /\
         Forall2 Qeq mono
           (map (fun lr => ((fst lr + snd lr) / 2)%Q) (combine left right))) /\
    (forall raw,
       Z.odd (Z.of_nat (length raw)) = true ->
       AudioCapture.to_mono c raw = Raise OtherException).
Proof.
  intros c Hch. unfold AudioCapture.to_mono. rewrite Hch.
  change (1 <? 2) with true. cbn iota. split.
  - intros left right Hlen. unfold AudioCapture.reshape_mean.
    rewrite (interleave_length left right Hlen).
    replace (Z.of_nat (2 * length left)) with (Z.of_nat (length left) * 2) by lia.
    rewrite Z.mod_mul, Z.div_mul by lia. cbn [Z.eqb].
    rewrite Nat2Z.id. change (Z.to_nat 2) with 2%nat.
    eexists. split; [reflexivity |]. now apply rows_interleave.
  - intros raw Hodd. unfold AudioCapture.reshape_mean.
    rewrite Zmod_odd, Hodd. reflexivity.
Qed.

Lemma stereo_frames_are_averaged_witness :
  let c := {| AudioCapture._pa := true; AudioCapture._stream := true;
              AudioCapture._is_capturing := true;
              AudioCapture._audio_buffer := [];
              AudioCapture._device_index := None;
              AudioCapture._target_sample_rate := 16000;
              AudioCapture._source_sample_rate := Some 16000;
              AudioCapture._source_channels := Some 2 |} in
  (exists mono,
     AudioCapture.to_mono c [1%Q; 3%Q; 0%Q; 1%Q] = Return mono /\
     Forall2 Qeq mono [((1 + 3) / 2)%Q; ((0 + 1) / 2)%Q]) /\
  AudioCapture.to_mono c [1%Q; 3%Q; 0%Q] = Raise OtherException.
Proof.
  intros c.
  destruct (stereo_frames_are_averaged c eq_refl) as [Heven Hodd]. split.
  - destruct (Heven [1%Q; 0%Q] [3%Q; 1%Q] eq_refl) as (mono & Hm & Hq).
    exists mono. split; [exact Hm | exact Hq].
  - apply Hodd. reflexivity.
Defined.








(** ** Starting and stopping the capture *)



(** X22. When the stream opens but does not start, [start] raises with the
    object already marked as capturing, so that a later [start] finds
    nothing to do and returns without capturing anything; when the stream
    does not open, the object is left not capturing. *)
Theorem capture_start_failures :
  forall (h : AudioCapture.Host) (device_index : option Z)
         (c : AudioCapture.t) (device : AudioCapture.AudioDevice) (e : exn),
    AudioCapture._is_capturing c = false ->
    AudioCapture.resolve_device h
      (AudioCapture.or_index device_index (AudioCapture._device_index c))
    = Return device ->
    (AudioCapture.pa_open h = Raise e ->
     snd (AudioCapture.start h device_index c) = Raised e /\
     AudioCapture._is_capturing (fst (AudioCapture.start h device_index c)) = false) /\
    (AudioCapture.pa_open h = Return tt ->
     AudioCapture.start_stream h = Raise e ->
     snd (AudioCapture.start h device_index c) = Raised e /\
     AudioCapture._is_capturing (fst (AudioCapture.start h device_index c)) = true /\
     forall h' device_index',
       AudioCapture.start h' device_index' (fst (AudioCapture.start h device_index c))
       = (fst (AudioCapture.start h device_index c), Normal)).
Proof.
  intros h di c device e Hc Hr. split.
  - intros Ho. unfold AudioCapture.start. rewrite Hc, Hr, Ho.
    split; reflexivity.
  - intros Ho Hs.
    remember (AudioCapture.start h di c) as r eqn:Er.
    unfold AudioCapture.start in Er. rewrite Hc, Hr, Ho, Hs in Er. subst r.
    cbn [fst snd AudioCapture._is_capturing]. repeat split.
Qed.

Lemma capture_start_failures_witness :
  let h := {| AudioCapture.pa_init := Return tt;
              AudioCapture.loopback_devices := [speaker];
              AudioCapture.pa_open := Return tt;
              AudioCapture.start_stream := Raise OtherException |} in
  let c := {| AudioCapture._pa := true; AudioCapture._stream := false;
              AudioCapture._is_capturing := false;
              AudioCapture._audio_buffer := [];
              AudioCapture._device_index := None;
              AudioCapture._target_sample_rate := 16000;
              AudioCapture._source_sample_rate := None;
              AudioCapture._source_channels := None |} in
  snd (AudioCapture.start h None c) = Raised OtherException /\
  AudioCapture._is_capturing (fst (AudioCapture.start h None c)) = true /\
  snd (AudioCapture.start (host_with [speaker]) None
         (fst (AudioCapture.start h None c))) = Normal.
Proof.
  intros h c.
  destruct (proj2 (capture_start_failures h None c speaker OtherException
                     eq_refl eq_refl) eq_refl eq_refl)
    as (Hs & Hcap & Hnext).
  split; [exact Hs |]. split; [exact Hcap |].
  now rewrite Hnext.
Defined.

(** X23. Stopping and closing the capture can be repeated without effect:
    [stop] after [stop] and [close] after [close] change nothing more; a
    closed object is not capturing, has no stream and holds no host handle,
    and still has the audio it recorded. *)
Theorem capture_stop_close_idempotent :
  forall c : AudioCapture.t,
    AudioCapture.stop (AudioCapture.stop c) = AudioCapture.stop c /\
    AudioCapture.close (AudioCapture.close c) = AudioCapture.close c /\
    AudioCapture.close (AudioCapture.stop c) = AudioCapture.close c /\
    AudioCapture._is_capturing (AudioCapture.close c) = false /\
    AudioCapture._pa (AudioCapture.close c) = false /\
    (AudioCapture._is_capturing c = true ->
     AudioCapture._stream (AudioCapture.close c) = false) /\
    AudioCapture._audio_buffer (AudioCapture.close c) = AudioCapture._audio_buffer c.
Proof.
  intros c. unfold AudioCapture.close, AudioCapture.stop.
  destruct c as [pa stream capturing buffer di target rate channels].
  destruct capturing; cbn; repeat split; easy.
Qed.

(** ** The enumeration of the devices *)




(** * The checks before startup *)

Lemma tuple_lt_3_10 (version_info : list Z) :
  Main.tuple_lt version_info [3; 10] = true <->
  match version_info with
  | [] => True
  | major :: rest =>
      major < 3 \/
      (major = 3 /\ match rest with
                    | [] => True
                    | minor :: _ => minor < 10
                    end)
  end.
Proof.
  destruct version_info as [| major [| minor rest]]; cbn [Main.tuple_lt].
  - tauto.
  - rewrite orb_true_iff, andb_true_iff, Z.ltb_lt, Z.eqb_eq. intuition.
  - rewrite orb_true_iff, andb_true_iff, Z.ltb_lt, Z.eqb_eq.
    rewrite orb_true_iff, andb_true_iff, Z.ltb_lt, Z.eqb_eq.
    destruct rest; intuition (try discriminate).
Qed.

(** X25. [check_prerequisites] lets the program start exactly when the
    interpreter is Python 3.10 or later, the service answered
    [GET /api/tags] with status 200 and the pharma database file exists;
    otherwise it reports every check that failed, in the order of the
    checks, and exits. *)
Theorem prerequisites_gate_startup :
  forall (major minor micro : Z) (tags_status : result Z) (database_exists : bool),
    (Main.exits [major; minor; micro] tags_status database_exists = false <->
     (3 < major \/ (major = 3 /\ 10 <= minor)) /\
     tags_status = Return 200 /\
     database_exists = true) /\
    (length (Main.check_prerequisites [major; minor; micro] tags_status
               database_exists) <= 3)%nat.
Proof.
  intros major minor micro tags db.
  unfold Main.exits, Main.check_prerequisites.
  pose proof (tuple_lt_3_10 [major; minor; micro]) as Hv. cbn iota in Hv.
  destruct (Main.tuple_lt [major; minor; micro] [3; 10]) eqn:Ev.
  - split; [| destruct tags as [s | e]; [destruct (s =? 200) |]; destruct db; cbn; lia].
    cbn [app]. split; [discriminate |].
    intros [Hver _]. destruct (proj1 Hv eq_refl); lia.
  - assert (Hok : 3 < major \/ major = 3 /\ 10 <= minor).
    { destruct (Z.lt_trichotomy major 3) as [H | [H | H]].
      - discriminate (proj2 Hv (or_introl H)).
      - destruct (Z.lt_ge_cases minor 10) as [Hm | Hm]; [| now right].
        discriminate (proj2 Hv (or_intror (conj H Hm))).
      - now left. }
    cbn [app].
    destruct tags as [status | e].
    + destruct (status =? 200) eqn:Es; cbn [negb app].
      * apply Z.eqb_eq in Es. subst status.
        destruct db; cbn; (split; [| lia]); split; try discriminate; intuition;
          discriminate.
      * apply Z.eqb_neq in Es.
        split; [| destruct db; cbn; lia].
        split; [discriminate |]. intros (_ & [= H] & _). now elim Es.
    + split; [| destruct db; cbn; lia].
      split; [discriminate |]. intros (_ & H & _). discriminate H.
Qed.

Lemma prerequisites_gate_startup_witness :
  Main.exits [3; 10; 0] (Return 200) true = false /\
  Main.check_prerequisites [3; 9; 18] (Raise ConnectionError) false
  = [Main.PythonTooOld; Main.CannotConnectToOllama; Main.PharmaDatabaseMissing].
Proof.
  split; [| reflexivity].
  apply (proj1 (prerequisites_gate_startup 3 10 0 (Return 200) true)).
  split; [right; lia | split; reflexivity].
Defined.

Lemma warm_up_posts_one_request_witness :
  fst (@OllamaEngine.warm_up ascii_lower qwen service_down) = false /\
  snd (@OllamaEngine.warm_up ascii_lower qwen service_down)
  = [OllamaEngine.make_payload qwen OllamaEngine.PromptRuToEn
       OllamaEngine.warm_up_text].
Proof.
  destruct (warm_up_posts_one_request ascii_lower qwen service_down) as [Hs Hf].
  split; [| exact Hs].
  destruct (fst (@OllamaEngine.warm_up ascii_lower qwen service_down)) eqn:E;
    [| reflexivity].
  destruct (proj1 Hf eq_refl) as [content Hc]. discriminate Hc.
Defined.

Lemma capture_stop_close_idempotent_witness :
  let c := {| AudioCapture._pa := true; AudioCapture._stream := true;
              AudioCapture._is_capturing := true;
              AudioCapture._audio_buffer := [loud];
              AudioCapture._device_index := None;
              AudioCapture._target_sample_rate := 16000;
              AudioCapture._source_sample_rate := Some 48000;
              AudioCapture._source_channels := Some 2 |} in
  AudioCapture._is_capturing c = true /\
  AudioCapture._stream (AudioCapture.close c) = false /\
  AudioCapture.close (AudioCapture.close c) = AudioCapture.close c.
Proof.
  intros c.
  destruct (capture_stop_close_idempotent c) as (_ & Hcc & _ & _ & _ & Hs & _).
  split; [reflexivity |]. split; [exact (Hs eq_refl) | exact Hcc].
Defined.

(** * Further properties of the delivered items *)

Lemma collect_stripped (info : WhisperEngine.TranscriptionInfo)
  (segs : list WhisperEngine.RawSegment) :
  Forall stripped (WhisperEngine.collect info segs).
Proof.
  induction segs as [| s r IH]; cbn [WhisperEngine.collect]; [constructor |].
  destruct (truthy (strip (WhisperEngine.seg_text s))); cbn [negb]; [| exact IH].
  constructor; [| exact IH]. unfold stripped. cbn [WhisperEngine.text].
  apply strip_idempotent.
Qed.

Lemma transcribe_stripped (w : WhisperEngine.t)
  (model : WhisperEngine.ModelCall -> WhisperEngine.ModelAnswer)
  (audio : option (list Q)) (language : option str) (ms mx : Z)
  (segments : list WhisperEngine.TranscriptSegment) :
  fst (WhisperEngine.transcribe w model audio language ms mx) = Return segments ->
  Forall stripped segments.
Proof.
  unfold WhisperEngine.transcribe.
  destruct audio as [a |]; [| intros [= <-]; constructor].
  destruct (length a =? 0)%nat; [intros [= <-]; constructor |].
  destruct (rms_below _ _); [intros [= <-]; constructor |].
  destruct (model _) as [e | segs [| e] info]; cbn [fst]; try discriminate.
  intros [= <-]. apply collect_stripped.
Qed.

(** The texts waiting in the transcript queue are stripped, in every state
    of the pipeline. *)
Lemma reachable_stripped (U : Unicode) (p : t) :
  reachable p -> Forall stripped (Queue.items (_transcript_queue p)).
Proof.
  intros Hr. induction Hr as [sd di | p p' Hr IH Hstep]; [constructor |].
  destruct (reachable_well_formed U p Hr) as [Ha Ht _ _ _ _ _].
  destruct Hstep.
  - now destruct (start_frame U w p) as (_ & -> & _).
  - unfold stop. destruct (_running p); cbn [negb fst]; [| exact IH].
    rewrite !drain_queue_empty. cbn [_capture set_running].
    destruct (_capture p); constructor.
  - destruct (producer_effect audio p Ha) as [-> | (a & _ & _ & ->)]; exact IH.
  - unfold whisper_body, Queue.get, Queue.get_nowait.
    destruct (Queue.items (_audio_queue p)) as [| audio rest]; [exact IH |].
    cbn [_whisper set_audio_queue].
    destruct (_whisper p) as [whisper |]; [| exact IH].
    destruct (fst (WhisperEngine.transcribe _ _ _ _ _ _)) as [segments | e] eqn:Etr;
      [| exact IH].
    rewrite enqueue_segments_within by exact Ht.
    cbn [fst _transcript_queue set_transcript_queue set_stats set_audio_queue
         Queue.items].
    apply Forall_lastn, Forall_app. split; [exact IH |].
    now apply transcribe_stripped in Etr.
  - destruct (ollama_effect U tick p)
      as [-> | (seg & rest & Hi & [-> | (result & ->)])];
      [exact IH | |]; rewrite Hi in IH; apply Forall_inv_tail in IH; exact IH.
Qed.

(** X26. In every state of the pipeline, an item the translation worker
    hands to the sink carries a transcript whose text is stripped and not
    empty, a creation time taken from the clock, and no pharma flags; and
    when it carries a translation, the source text and source language of
    the translation are the text and language of the transcript, and its
    model is the model of the engine. *)
Theorem delivered_item_is_consistent :
  forall (U : Unicode) (tick : Tick) (p : t) (item : PipelineItem),
    reachable p ->
    In item (snd (ollama_body tick p)) ->
    strip (WhisperEngine.text (transcript item)) = WhisperEngine.text (transcript item) /\
    WhisperEngine.text (transcript item) <> [] /\
    timestamp item = now tick /\
    pharma_flags item = [] /\
    forall r, translation item = Some r ->
      OllamaEngine.source_text r = WhisperEngine.text (transcript item) /\
      OllamaEngine.source_language r = WhisperEngine.language (transcript item) /\
      Some (OllamaEngine.model r) = option_map OllamaEngine._model (_ollama p).
Proof.
  intros U tick p item Hr.
  pose proof (reachable_stripped U p Hr) as Hs.
  destruct (reachable_well_formed U p Hr) as [_ _ Hx _ _ _ _].
  unfold ollama_body, Queue.get, Queue.get_nowait.
  destruct (Queue.items (_transcript_queue p)) as [| seg rest]; [easy |].
  apply Forall_inv in Hs, Hx.
  cbn [_ollama set_transcript_queue].
  destruct (_ollama p) as [ollama |]; [| easy].
  cbn [snd]. intros [<- | []].
  unfold post_init. cbn [timestamp]. change (Qeq_bool 0 0) with true.
  cbn [transcript translation timestamp pharma_flags].
  unfold stripped, nonblank in *.
  split; [exact Hs |]. split.
  { intros E. rewrite E in Hx. discriminate Hx. }
  split; [reflexivity |]. split; [reflexivity |].
  intros r. unfold OllamaEngine.translate.
  destruct (negb (truthy (WhisperEngine.text seg))
            || negb (truthy (strip (WhisperEngine.text seg)))); [discriminate |].
  destruct (OllamaEngine.direction _) as [[prompt target] |]; [| discriminate].
  destruct (OllamaEngine.answer _ _); [discriminate |].
  cbn [fst]. intros [= <-]. cbn. repeat split. exact Hs.
Qed.

Lemma delivered_item_is_consistent_witness :
  let tick := {| chat := service_says (lit " Privet! "); now := 7 |} in
  exists item r,
    snd (@ollama_body ascii_lower tick listening) = [item] /\
    translation item = Some r /\
    OllamaEngine.source_text r = lit "hello" /\
    OllamaEngine.translated_text r = lit "Privet!" /\
    timestamp item = 7%Q.
Proof.
  intros tick. do 2 eexists. split; [reflexivity |]. split; [reflexivity |].
  match goal with
  | |- OllamaEngine.source_text ?r = _ /\ _ =>
      destruct (delivered_item_is_consistent ascii_lower tick listening _
                  listening_reachable (or_introl eq_refl))
        as (_ & _ & Ht & _ & Hr);
      destruct (Hr r eq_refl) as (Hsrc & _ & _)
  end.
  split; [exact Hsrc |]. split; [reflexivity | exact Ht].
Defined.

